(** * Parallel log analyzer: a shallow embedding of [backend/parallel_analyzer.py]

    The development follows the source file top to bottom: text and the
    regular expressions the analyzer uses, the loader, delimiter sniffing,
    column inference over a parsed frame, the detector [analyze_logs], and
    the scatter/gather driver [main] with its round-robin partitioning and
    tally merge.

    Conventions.
    - Text is a [string] whose characters are code points below 256; the
      character classes ([str.isspace], [str.isdigit], [str.lower], the
      regular-expression classes [\d] and [\s]) are the Unicode ones
      restricted to that range.
    - A tally ([suspicious_ips], [final]) is a [gmap string Z]: Python's
      dictionaries are read here up to key order, counts are Python integers.
    - [csv.Sniffer], [pandas.read_csv] and the file system are libraries
      outside the repository; they are parameters of the sections that call
      them, with [None] (or [inl e]) standing for a raised exception. *)

From Stdlib Require Import ZArith NArith String Ascii List Lia Permutation.
From stdpp Require Import gmap strings list fin_maps pretty.

Local Open Scope Z_scope.

(** ** Characters and strings *)

Module Text.

Definition code (c : ascii) : N := N_of_ascii c.

Definition between (lo hi : N) (c : ascii) : bool :=
  ((lo <=? code c) && (code c <=? hi))%N.

(** [\d] of a [str] pattern: decimal digits (category Nd). *)
Definition re_digit (c : ascii) : bool := between 48 57 c.

(** [str.isspace] on one character, also the class [\s]:
    TAB..CR, FS..US, SPACE, NEL, NBSP. *)
Definition isspace (c : ascii) : bool :=
  between 9 13 c || between 28 32 c || (code c =? 133)%N || (code c =? 160)%N.

(** [str.isdigit] on one character: the decimal digits and the
    superscripts two, three and one. *)
Definition isdigit_char (c : ascii) : bool :=
  between 48 57 c || between 178 179 c || (code c =? 185)%N.

(** [str.lower] on one character. *)
Definition lower_char (c : ascii) : ascii :=
  if between 65 90 c || (between 192 222 c && negb (code c =? 215)%N)
  then ascii_of_N (code c + 32) else c.

Fixpoint map_chars (f : ascii → ascii) (s : string) : string :=
  match s with
  | EmptyString => EmptyString
  | String c s' => String (f c) (map_chars f s')
  end.

Definition lower (s : string) : string := map_chars lower_char s.

Fixpoint all_chars (p : ascii → bool) (s : string) : bool :=
  match s with
  | EmptyString => true
  | String c s' => p c && all_chars p s'
  end.

Definition is_empty (s : string) : bool :=
  match s with EmptyString => true | _ => false end.

(** [s.isdigit()]: every character is a digit and there is at least one. *)
Definition isdigit (s : string) : bool := negb (is_empty s) && all_chars isdigit_char s.

Fixpoint lstrip_by (p : ascii → bool) (s : string) : string :=
  match s with
  | EmptyString => EmptyString
  | String c s' => if p c then lstrip_by p s' else s
  end.

Fixpoint rstrip_by (p : ascii → bool) (s : string) : string :=
  match s with
  | EmptyString => EmptyString
  | String c s' =>
      let r := rstrip_by p s' in
      if is_empty r && p c then EmptyString else String c r
  end.

(** [s.strip()] *)
Definition strip (s : string) : string := rstrip_by isspace (lstrip_by isspace s).

Definition newline : ascii := ascii_of_N 10.
Definition tab : ascii := ascii_of_N 9.

(** [s.rstrip("\n")] *)
Definition rstrip_newlines (s : string) : string :=
  rstrip_by (Ascii.eqb newline) s.

(** [pat in s] *)
Fixpoint contains (pat s : string) : bool :=
  String.prefix pat s ||
  match s with
  | EmptyString => false
  | String _ s' => contains pat s'
  end.

Definition contains_char (c : ascii) (s : string) : bool :=
  contains (String c EmptyString) s.

(** [s[:n]] *)
Definition take (n : nat) (s : string) : string := String.substring 0 n s.

(** [sep.join(parts)] *)
Definition join (sep : string) (parts : list string) : string :=
  String.concat sep parts.

Definition lines_text (parts : list string) : string :=
  join (String newline EmptyString) parts.

End Text.

(** ** Regular expressions

    The patterns of the source use literals, character classes, greedy
    bounded or unbounded repetition of a class, an optional group, one
    capture group and the anchors; [run] is the usual backtracking matcher
    for them, in continuation-passing style. *)

Module Re.

Inductive regex : Type :=
| Eps
| Chr (p : ascii → bool)
| Seq (a b : regex)
| Rep (p : ascii → bool) (lo : nat) (hi : option nat)
| Opt (a : regex)
| Group (a : regex)
| Bol
| Eol.

(** A literal string, character by character. *)
Fixpoint lit (s : string) : regex :=
  match s with
  | EmptyString => Eps
  | String c s' => Seq (Chr (Ascii.eqb c)) (lit s')
  end.

(** [(?:a){n}] *)
Fixpoint times (n : nat) (a : regex) : regex :=
  match n with
  | O => Eps
  | S n' => Seq a (times n' a)
  end.

(** [.] without DOTALL *)
Definition dot (c : ascii) : bool := negb (Ascii.eqb c Text.newline).

Definition may_take (hi : option nat) (n : nat) : bool :=
  match hi with
  | Some h => (n <? h)%nat
  | None => true
  end.

Section Matcher.
Context {R : Type}.

(** A continuation receives the position reached, the captures so far
    and the rest of the input. *)
Definition kont : Type := nat → list string → string → option R.

(** Greedy repetition: take one more character when allowed, and fall
    back to stopping here when the rest of the pattern then fails. *)
Fixpoint rep (p : ascii → bool) (lo : nat) (hi : option nat) (n : nat)
    (pos : nat) (caps : list string) (s : string) (k : kont) : option R :=
  let stop := if (lo <=? n)%nat then k pos caps s else None in
  match s with
  | String c s' =>
      if p c && may_take hi n then
        match rep p lo hi (S n) (S pos) caps s' k with
        | Some r => Some r
        | None => stop
        end
      else stop
  | EmptyString => stop
  end.

Fixpoint run (r : regex) (pos : nat) (caps : list string) (s : string)
    (k : kont) : option R :=
  match r with
  | Eps => k pos caps s
  | Chr p =>
      match s with
      | String c s' => if p c then k (S pos) caps s' else None
      | EmptyString => None
      end
  | Seq a b => run a pos caps s (λ pos' caps' s', run b pos' caps' s' k)
  | Rep p lo hi => rep p lo hi 0 pos caps s k
  | Opt a =>
      match run a pos caps s k with
      | Some x => Some x
      | None => k pos caps s
      end
  | Group a =>
      run a pos caps s
        (λ pos' caps' s', k pos' (caps' ++ [Text.take (pos' - pos) s]) s')
  | Bol => if (pos =? 0)%nat then k pos caps s else None
  | Eol =>
      match s with
      | EmptyString => k pos caps s
      | String c EmptyString =>
          if Ascii.eqb c Text.newline then k pos caps s else None
      | _ => None
      end
  end.
End Matcher.

(** A match object: where it starts, how long it is, its groups. *)
Record match_obj : Type := MatchObj {
  m_start : nat;
  m_len : nat;
  m_groups : list string
}.

(** [m.group(1)] *)
Definition group1 (m : match_obj) : string := hd EmptyString (m_groups m).

(** A match of [r] that begins exactly at the head of [s], which sits at
    offset [pos] of the whole subject. *)
Definition match_at (r : regex) (pos : nat) (s : string) : option match_obj :=
  run r pos [] s (λ pos' caps _, Some (MatchObj pos (pos' - pos) caps)).

(** [re.match(r, s)] *)
Definition re_match (r : regex) (s : string) : option match_obj := match_at r 0 s.

Fixpoint search_from (r : regex) (pos : nat) (s : string) : option match_obj :=
  match match_at r pos s with
  | Some m => Some m
  | None =>
      match s with
      | EmptyString => None
      | String _ s' => search_from r (S pos) s'
      end
  end.

(** [re.search(r, s)] *)
Definition search (r : regex) (s : string) : option match_obj := search_from r 0 s.

(** [re.findall(r, s)] for a pattern without capture groups that cannot
    match the empty string: the leftmost matches, none overlapping.
    [skip] counts the characters still covered by the previous match. *)
Fixpoint findall_from (r : regex) (skip pos : nat) (s : string) : list string :=
  match s with
  | EmptyString => []
  | String _ s' =>
      match skip with
      | S n => findall_from r n (S pos) s'
      | O =>
          match match_at r pos s with
          | Some (MatchObj _ (S n) _) =>
              Text.take (S n) s :: findall_from r n (S pos) s'
          | _ => findall_from r 0 (S pos) s'
          end
      end
  end.

Definition findall (r : regex) (s : string) : list string := findall_from r 0 0 s.

Definition matches (r : regex) (s : string) : bool :=
  match re_match r s with Some _ => true | None => false end.

Definition found (r : regex) (s : string) : bool :=
  match search r s with Some _ => true | None => false end.

End Re.

(** ** The patterns of the source *)

(** [IP_REGEX = r"(?:\d{1,3}\.){3}\d{1,3}"] *)
Definition IP_REGEX : Re.regex :=
  Re.Seq
    (Re.times 3 (Re.Seq (Re.Rep Text.re_digit 1 (Some 3%nat)) (Re.lit ".")))
    (Re.Rep Text.re_digit 1 (Some 3%nat)).

(** [pattern = r"Failed password for.*from (" + IP_REGEX + r")"] *)
Definition FAILED_PASSWORD : Re.regex :=
  Re.Seq (Re.lit "Failed password for")
    (Re.Seq (Re.Rep Re.dot 0 None)
       (Re.Seq (Re.lit "from ") (Re.Group IP_REGEX))).

(** [r"^-?\d+(\.\d+)?$"] *)
Definition NUMERIC : Re.regex :=
  Re.Seq Re.Bol
    (Re.Seq (Re.Rep (Ascii.eqb "-") 0 (Some 1%nat))
       (Re.Seq (Re.Rep Text.re_digit 1 None)
          (Re.Seq
             (Re.Opt (Re.Group (Re.Seq (Re.lit ".") (Re.Rep Text.re_digit 1 None))))
             Re.Eol))).

(** [r"\s{2,}"] *)
Definition WIDE_GAP : Re.regex := Re.Rep Text.isspace 2 None.

(** ** Tallies: [suspicious_ips], the per-worker results and [final] *)

Abbreviation tally := (gmap string Z).

(** [d.get(ip, 0)] *)
Definition get (ip : string) (t : tally) : Z := default 0 (t !! ip).

(** [d[ip] = d.get(ip, 0) + 1] *)
Definition incr (t : tally) (ip : string) : tally := <[ip := get ip t + 1]> t.

(** [for ip in ips: d[ip] = d.get(ip, 0) + 1] *)
Definition incr_all (t : tally) (ips : list string) : tally := foldl incr t ips.

(** ** [load_data] *)

(** An exception as its class and [str(e)]; the exception being handled
    when another is raised (its [__context__]) is not recorded. *)
Inductive exception : Type :=
| ValueError (msg : string)
| RuntimeError (msg : string)
| LibraryError (cls msg : string).

(** [str(e)] *)
Definition exc_text (e : exception) : string :=
  match e with
  | ValueError m | RuntimeError m | LibraryError _ m => m
  end.

(** What [json.load] returns, as far as [load_data] looks at it: the items
    are already rendered by [str]. *)
Inductive json_doc : Type :=
| JsonList (items : list string)
| JsonDict (items : list (string * string))
| JsonOther (text : string).

(** The reads [load_data] performs. [open_lines] yields the lines of a text
    file with their terminators; [read_excel] yields the rows of the sheet,
    each cell with its null flag and its [str] rendering. A raised exception
    is [inl]. *)
Record FileSystem : Type := {
  open_lines : string → exception + list string;
  read_excel : string → exception + list (list (bool * string));
  json_load : string → exception + json_doc
}.

Module Path.

(** [s.rfind(c)], [-1] when absent *)
Fixpoint rfind_from (c : ascii) (s : string) (i : Z) : Z :=
  match s with
  | EmptyString => -1
  | String d s' =>
      let later := rfind_from c s' (i + 1) in
      if 0 <=? later then later else if Ascii.eqb d c then i else -1
  end.

Definition rfind (c : ascii) (s : string) : Z := rfind_from c s 0.

Definition char_is (c : ascii) (s : string) (i : nat) : bool :=
  match String.get i s with
  | Some d => Ascii.eqb d c
  | None => false
  end.

(** [os.path.splitext(p)[1]] with [/] as separator: the suffix from the
    last dot of the last component, unless only dots precede it there. *)
Definition splitext_ext (p : string) : string :=
  let sepIndex := rfind "/" p in
  let dotIndex := rfind "." p in
  if sepIndex <? dotIndex then
    let first := Z.to_nat (sepIndex + 1) in
    let stem := seq first (Z.to_nat dotIndex - first) in
    if existsb (λ i, negb (char_is "." p i)) stem
    then String.substring (Z.to_nat dotIndex) (String.length p) p
    else EmptyString
  else EmptyString.

End Path.

Definition nonblank (line : string) : bool := negb (Text.is_empty (Text.strip line)).

Definition SUPPORTED : list string := [".csv"; ".xlsx"; ".xls"; ".json"; ".log"; ".txt"].

Section Loader.
Variable fs : FileSystem.

Definition read_text_lines (file_path : string) : exception + list string :=
  match open_lines fs file_path with
  | inl e => inl e
  | inr ls => inr (map Text.rstrip_newlines (filter (λ l, nonblank l = true) ls))
  end.

(** The body of the [try]. *)
Definition load_body (file_path ext : string) : exception + list string :=
  if String.eqb ext ".csv" then read_text_lines file_path
  else if String.eqb ext ".xlsx" || String.eqb ext ".xls" then
    match read_excel fs file_path with
    | inl e => inl e
    | inr rows =>
        inr (map (λ row, Text.join (String Text.tab EmptyString) (map snd row))
               (filter (λ row, forallb fst row = false) rows))
    end
  else if String.eqb ext ".json" then
    match json_load fs file_path with
    | inl e => inl e
    | inr (JsonList items) => inr items
    | inr (JsonDict items) => inr (map (λ kv, kv.1 +:+ ": " +:+ kv.2) items)
    | inr (JsonOther text) => inr [text]
    end
  else if String.eqb ext ".log" || String.eqb ext ".txt" then read_text_lines file_path
  else inl (ValueError ("Unsupported file type: " +:+ ext)).

(** [except Exception as e: raise RuntimeError(...)] around the body. *)
Definition load_data (file_path : string) : exception + list string :=
  let ext := Text.lower (Path.splitext_ext file_path) in
  match load_body file_path ext with
  | inl e => inl (RuntimeError ("Error loading file " +:+ file_path +:+ ": " +:+ exc_text e))
  | inr logs => inr logs
  end.
End Loader.

(** ** Parsed frames

    A [DataFrame] as the analyzer reads it. pandas renders a cell through
    [str]; what a row of [iterrows] shows ([row_text]) and what the column
    shows after [astype(str)] ([col_text], one list per label) are both
    recorded, since [iterrows] brings a row to one common dtype. Labels are
    looked up by name, first occurrence; the model covers frames whose labels
    are pairwise distinct ([frame_ok]). With a repeated label pandas hands
    out a frame or a series where the code expects a series or a cell, and
    the code raises or renders it whole; that is outside the model, and the
    statements about frames assume [frame_ok]. *)

Record DataFrame : Type := mkFrame {
  columns : list string;
  col_text : list (list string);
  row_text : list (list string)
}.

Definition frame_ok (df : DataFrame) : Prop :=
  NoDup (columns df) ∧ length (col_text df) = length (columns df).

(** [l.index(x)] *)
Definition index_of (x : string) (l : list string) : option nat :=
  fst <$> list_find (λ y, y = x) l.

(** [df[label].astype(str)] *)
Definition column (df : DataFrame) (label : string) : list string :=
  match index_of label (columns df) with
  | Some j => default [] (col_text df !! j)
  | None => []
  end.

(** [str(row.get(label, ""))] *)
Definition row_get (df : DataFrame) (row : list string) (label : string) : string :=
  match index_of label (columns df) with
  | Some j => default EmptyString (row !! j)
  | None => EmptyString
  end.

(** [l[-n:]] *)
Definition last_n {A} (n : nat) (l : list A) : list A := drop (length l - n) l.

(** Truth value of a label. *)
Definition truthy (label : string) : bool := negb (Text.is_empty label).

Definition set_columns (labels : list string) (df : DataFrame) : DataFrame :=
  mkFrame labels (col_text df) (row_text df).

(** The two assignments to [df.columns] in [analyze_logs]. *)
Definition normalize_columns (labels : list string) : list string :=
  let stripped := map Text.strip labels in
  if forallb (λ c, Text.isdigit (Text.strip c)) stripped
  then map (λ i : nat, "col" +:+ pretty i) (seq 0 (length stripped))
  else stripped.

(** ** [sniff_delimiter] *)

Definition WHITESPACE_SEP : string :=
  String "\" (String "s" (String "+" EmptyString)).

Section Sniff.
(** [csv.Sniffer().sniff(text).delimiter], [None] when it raises. *)
Variable sniff : string → option string.

Definition sniff_delimiter (sample_text : string) : string :=
  match sniff (Text.take 4096 sample_text) with
  | Some d => d
  | None =>
      if Text.contains_char Text.tab sample_text then String Text.tab EmptyString
      else if Text.contains ";" sample_text then ";"
      else if Text.contains "," sample_text then ","
      else WHITESPACE_SEP
  end.
End Sniff.

(** ** [find_src_col] and [find_attack_col] *)

Definition SRC_KEYS : list string := ["src"; "source"; "sip"; "src_ip"; "source_ip"].
Definition ATTACK_KEYS : list string := ["attack"; "label"; "cat"; "class"].

(** [any(k in name for k in keys)] *)
Definition any_key (keys : list string) (name : string) : bool :=
  existsb (λ k, Text.contains k name) keys.

(** The name-based loop shared by both functions:
    [for name in cols: if any(...): return df.columns[cols.index(name)]]. *)
Definition find_by_name (keys : list string) (df : DataFrame) : option string :=
  let cols := map Text.lower (columns df) in
  match find (any_key keys) cols with
  | Some name => index_of name cols ≫= λ i, columns df !! i
  | None => None
  end.

(** [sample.str.count(IP_REGEX).sum()] *)
Definition ip_count (sample : list string) : nat :=
  sum_list (map (λ v, length (Re.findall IP_REGEX v)) sample).

(** [max(1, min(10, len(sample)//10))] *)
Definition ip_threshold (sample : list string) : nat :=
  Nat.max 1 (Nat.min 10 (length sample / 10)).

Definition many_ips (df : DataFrame) (col : string) : bool :=
  let sample := take 200 (column df col) in
  (ip_threshold sample <=? ip_count sample)%nat.

(** [None] is the [IndexError] of [df.columns[0]] on a frame without
    columns. *)
Definition find_src_col (df : DataFrame) : option string :=
  match find_by_name SRC_KEYS df with
  | Some c => Some c
  | None =>
      match find (many_ips df) (columns df) with
      | Some c => Some c
      | None => head (columns df)
      end
  end.

Definition non_numeric (sample : list string) : nat :=
  length (filter (λ v, Re.matches NUMERIC v = false) sample).

Definition textual (df : DataFrame) (col : string) : bool :=
  (1 <=? non_numeric (take 500 (column df col)))%nat.

(** [None] is Python's [None]. *)
Definition find_attack_col (df : DataFrame) : option string :=
  match find_by_name ATTACK_KEYS df with
  | Some c => Some c
  | None => find (textual df) (rev (last_n 6 (columns df)))
  end.

(** ** [analyze_logs] *)

Definition BENIGN : list string := ["0"; "-"; "normal"; "benign"; "none"; ""].

Definition in_list (x : string) (l : list string) : bool := existsb (String.eqb x) l.

(** [src_val] of a row. *)
Definition src_value (df : DataFrame) (src_col : string) (row : list string) : string :=
  if bool_decide (src_col ∈ columns df) then Text.strip (row_get df row src_col)
  else EmptyString.

Definition skipped (src_val : string) : bool :=
  Text.is_empty src_val || String.eqb (Text.lower src_val) "nan".

(** [attack_col and str(row.get(attack_col, "")).strip()] *)
Definition attack_usable (df : DataFrame) (attack_col : option string)
    (row : list string) : bool :=
  match attack_col with
  | Some a => truthy a && negb (Text.is_empty (Text.strip (row_get df row a)))
  | None => false
  end.

Definition attack_value (df : DataFrame) (attack_col : option string)
    (row : list string) : string :=
  match attack_col with
  | Some a => Text.lower (Text.strip (row_get df row a))
  | None => EmptyString
  end.

(** [any(t and not re.match(NUMERIC, t) for t in tail)] over the last six
    cells, stripped and lower-cased. *)
Definition tail_textual (row : list string) : bool :=
  existsb (λ t, negb (Text.is_empty t) && negb (Re.matches NUMERIC t))
    (map (λ v, Text.lower (Text.strip v)) (last_n 6 row)).

(** One iteration of [for _, row in df.iterrows()]. *)
Definition row_step (df : DataFrame) (src_col : string) (attack_col : option string)
    (t : tally) (row : list string) : tally :=
  let src_val := src_value df src_col row in
  if skipped src_val then t
  else if attack_usable df attack_col row then
    if negb (in_list (attack_value df attack_col row) BENIGN) then incr t src_val else t
  else
    if tail_textual row then incr t src_val else t.

(** The frequency loop over [value_counts()]: each distinct value once,
    with its number of occurrences. *)
Definition freq_fallback (df : DataFrame) (src_col : string) (t : tally) : tally :=
  let values := column df src_col in
  foldl (λ t ip,
           let cnt := count_occ String.string_dec values ip in
           if Re.matches IP_REGEX ip && (1 <? cnt)%nat
           then <[ip := Z.of_nat cnt]> t else t)
    t (remove_dups values).

(** The part of the [try] that follows a successful parse. On a frame with
    pairwise distinct labels its only raising site, [find_src_col] on a
    frame without columns, precedes every update of [suspicious_ips]. *)
Definition tabular_scan (parsed : DataFrame) : option tally :=
  let df := set_columns (normalize_columns (columns parsed)) parsed in
  match find_src_col df with
  | None => None
  | Some src_col =>
      let attack_col := find_attack_col df in
      let t := foldl (row_step df src_col attack_col) ∅ (row_text df) in
      Some (if bool_decide (t = ∅) && truthy src_col
            then freq_fallback df src_col t else t)
  end.

(** One iteration of the plain-log loop. *)
Definition free_form_line (t : tally) (line : string) : tally :=
  match Re.search FAILED_PASSWORD line with
  | Some m => incr t (Re.group1 m)
  | None => incr_all t (Re.findall IP_REGEX line)
  end.

(** The [else] branch: plain log lines. *)
Definition free_form (log_chunk : list string) : tally :=
  foldl free_form_line ∅ log_chunk.

(** The [except] handler: every IP of every line. *)
Definition regex_fallback (t : tally) (log_chunk : list string) : tally :=
  foldl (λ t line, incr_all t (Re.findall IP_REGEX line)) t log_chunk.

Definition chunk_sample (log_chunk : list string) : string :=
  Text.lines_text (take 10 log_chunk).

Definition is_tabular (sample : string) : bool :=
  existsb (λ d, Text.contains d sample) [","; String Text.tab EmptyString; ";"]
  || Re.found WIDE_GAP sample.

Section Analyzer.
(** [csv.Sniffer().sniff(text).delimiter] and
    [pd.read_csv(StringIO(text), sep=sep, engine="python", header=0)];
    [None] is a raised exception. *)
Variable sniff : string → option string.
Variable read_csv : string → string → option DataFrame.

(** The [try] block; [None] when it raises. Every raising site comes
    before the first update of [suspicious_ips], so the handler starts
    from the empty tally. *)
Definition tabular_attempt (log_chunk : list string) : option tally :=
  let sep := sniff_delimiter sniff (chunk_sample log_chunk) in
  read_csv (Text.lines_text log_chunk) sep ≫= tabular_scan.

Definition analyze_logs (log_chunk : list string) : tally :=
  if is_tabular (chunk_sample log_chunk) then
    match tabular_attempt log_chunk with
    | Some t => t
    | None => regex_fallback ∅ log_chunk
    end
  else free_form log_chunk.
End Analyzer.

(** ** [main]: scatter, analyze, gather, merge *)

(** [l[i::step]], for [step >= 1]: skip [wait] elements, take one, and
    again every [step]. *)
Fixpoint stride {A} (step wait : nat) (l : list A) : list A :=
  match l with
  | [] => []
  | x :: l' =>
      match wait with
      | O => x :: stride step (step - 1) l'
      | S w => stride step w l'
      end
  end.

(** [chunks = [logs[i::size] for i in range(size)]] *)
Definition partition {A} (size : nat) (logs : list A) : list (list A) :=
  map (λ i, stride size i logs) (seq 0 size).

(** [for ip, c in r.items(): final[ip] = final.get(ip, 0) + c] *)
Definition merge_into (final r : tally) : tally :=
  map_fold (λ ip c acc, <[ip := get ip acc + c]> acc) final r.

(** [for r in all_results: ...] from the empty [final] *)
Definition merge_all (all_results : list tally) : tally :=
  foldl merge_into ∅ all_results.

(** A value of the JSON object written at the end. *)
Inductive json_value : Type :=
| JInt (n : Z)
| JStr (s : string).

Definition sentinel : gmap string json_value :=
  {[ "message" := JStr "No suspicious IPs or attack patterns detected." ]}.

(** The merge on rank 0, with [if not final: final = {"message": ...}]. *)
Definition aggregate (all_results : list tally) : gmap string json_value :=
  let final := merge_all all_results in
  if bool_decide (final = ∅) then sentinel else JInt <$> final.

Section Driver.
Variable sniff : string → option string.
Variable read_csv : string → string → option DataFrame.

(** What rank 0 writes for a non-empty [logs] and [size] ranks. *)
Definition pipeline (size : nat) (logs : list string) : gmap string json_value :=
  aggregate (map (analyze_logs sniff read_csv) (partition size logs)).

(** [main] on rank 0, from the loaded records on: for an empty input rank 0
    returns before the scatter and nothing is written. What the other ranks
    do then (they wait in [comm.scatter]) is not part of the model. *)
Definition run (size : nat) (logs : list string) : option (gmap string json_value) :=
  match logs with
  | [] => None
  | _ => Some (pipeline size logs)
  end.

(** [main] on rank 0: the loader's exception ends it before any
    partitioning. *)
Definition main (fs : FileSystem) (size : nat) (log_path : string)
    : exception + option (gmap string json_value) :=
  match load_data fs log_path with
  | inl e => inl e
  | inr logs => inr (run size logs)
  end.
End Driver.

(** ** Vocabulary of the statements *)

Definition sumZ (l : list Z) : Z := foldr Z.add 0 l.

Definition occurrences (k : string) (l : list string) : nat :=
  count_occ String.string_dec l k.

(** Pointwise sum of two optional counts: absent only when both are. *)
Definition opt_add (x y : option Z) : option Z :=
  match x, y with
  | None, None => None
  | _, _ => Some (default 0 x + default 0 y)
  end.

(** The counts a key has in the tallies that contain it. *)
Definition counts (k : string) (ts : list tally) : list Z := omap (λ t : tally, t !! k) ts.

Definition total (cs : list Z) : option Z :=
  match cs with
  | [] => None
  | _ => Some (sumZ cs)
  end.

Definition positive (t : tally) : Prop := ∀ k n, t !! k = Some n → 0 < n.

(** The keys one plain log line contributes. *)
Definition hits (line : string) : list string :=
  match Re.search FAILED_PASSWORD line with
  | Some m => [Re.group1 m]
  | None => Re.findall IP_REGEX line
  end.

Definition all_hits (log_chunk : list string) : list string :=
  concat (map hits log_chunk).

Definition all_ips (log_chunk : list string) : list string :=
  concat (map (Re.findall IP_REGEX) log_chunk).

(** The tally of a counted list: a key is bound when it occurs, to the
    number of its occurrences. *)
Definition count_of (k : string) (l : list string) : option Z :=
  if decide (occurrences k l = 0%nat) then None else Some (Z.of_nat (occurrences k l)).

(** A partition classified tabular whose third line has more fields than
    its header, so that parsing it raises. *)
Definition ragged_chunk : list string :=
  ["a,b"; "1,2"; "Failed password for root from 1.1.1.1, then 2.2.2.2, again"].

(** All partitions of a run are classified free-form. *)
Definition all_free_form (size : nat) (logs : list string) : Prop :=
  ∀ chunk, chunk ∈ partition size logs → is_tabular (chunk_sample chunk) = false.

(** Records on which the sniffing of a partition cannot see a table: no
    comma, tab or semicolon, no two whitespace characters in a row, a first
    and a last character that are not whitespace. *)
Definition delimiter_char (c : ascii) : bool :=
  Ascii.eqb c "," || Ascii.eqb c Text.tab || Ascii.eqb c ";".

Fixpoint gapless (s : string) : bool :=
  match s with
  | EmptyString => true
  | String c s' =>
      match s' with
      | EmptyString => true
      | String d _ => negb (Text.isspace c && Text.isspace d) && gapless s'
      end
  end.

Definition starts_space (s : string) : bool :=
  match s with
  | EmptyString => false
  | String c _ => Text.isspace c
  end.

Fixpoint ends_space (s : string) : bool :=
  match s with
  | EmptyString => false
  | String c EmptyString => Text.isspace c
  | String _ s' => ends_space s'
  end.

Definition plain (r : string) : bool :=
  negb (Text.is_empty r)
  && Text.all_chars (λ c, negb (delimiter_char c)) r
  && gapless r && negb (starts_space r) && negb (ends_space r).

(** Eleven records: ten plain ones, then a failed-password line with a
    comma and two addresses. *)
Definition failed_line : string := "Failed password for a from 1.1.1.1, 2.2.2.2".

Definition burst_logs : list string := replicate 10 "a" ++ [failed_line].

(** Parsing a text of one line gives a frame without data rows, or raises. *)
Definition header_only (read_csv : string → string → option DataFrame)
    (text : string) : Prop :=
  ∀ sep, match read_csv text sep with
         | Some df => row_text df = [] ∧ Forall (λ c, c = []) (col_text df)
         | None => True
         end.

(** The frame of scenario E: a source column followed by six numeric
    columns, so that no attack column is found and no row is counted. *)
Definition scenario_E : DataFrame :=
  mkFrame ["ip"; "a"; "b"; "c"; "d"; "e"; "f"]
    (["5.5.5.5"; "5.5.5.5"; "6.6.6.6"; "5.5.5.5"] :: replicate 6 ["1"; "2"; "3"; "4"])
    ["5.5.5.5" :: replicate 6 "1"; "5.5.5.5" :: replicate 6 "2";
     "6.6.6.6" :: replicate 6 "3"; "5.5.5.5" :: replicate 6 "4"].

(** [c] is the first element of [l] with property [P]. *)
Definition first_with (P : string → Prop) (l : list string) (c : string) : Prop :=
  ∃ i, l !! i = Some c ∧ P c ∧ ∀ j c', (j < i)%nat → l !! j = Some c' → ¬ P c'.

(** The rule of the specification, read literally: a column qualifies by
    the number of sampled values in which the IP pattern is found. *)
Definition values_matching (sample : list string) : nat :=
  length (filter (λ v, Re.found IP_REGEX v = true) sample).

Definition many_ip_values (df : DataFrame) (col : string) : bool :=
  let sample := take 200 (column df col) in
  (ip_threshold sample <=? values_matching sample)%nat.

Definition infer_source_column_as_stated (df : DataFrame) : option string :=
  match find_by_name SRC_KEYS df with
  | Some c => Some c
  | None =>
      match find (many_ip_values df) (columns df) with
      | Some c => Some c
      | None => head (columns df)
      end
  end.

(** Twenty rows; the second column holds one value with two addresses. *)
Definition two_in_one : DataFrame :=
  mkFrame ["a"; "b"]
    [replicate 20 "x"; "1.1.1.1 2.2.2.2" :: replicate 19 "y"]
    (["x"; "1.1.1.1 2.2.2.2"] :: replicate 19 ["x"; "y"]).

(** The frame of scenario C: header [src_ip,label], a benign row and an
    exploit row for the same address. *)
Definition scenario_C : DataFrame :=
  mkFrame ["src_ip"; "label"]
    [["9.9.9.9"; "9.9.9.9"]; ["benign"; "exploit"]]
    [["9.9.9.9"; "benign"]; ["9.9.9.9"; "exploit"]].

(** ** Measures of a pattern, and further vocabulary *)

Fixpoint drop_chars (n : nat) (s : string) : string :=
  match n, s with
  | S n', String _ s' => drop_chars n' s'
  | _, _ => s
  end.

Fixpoint group_free (r : Re.regex) : bool :=
  match r with
  | Re.Seq a b => group_free a && group_free b
  | Re.Opt a => group_free a
  | Re.Group _ => false
  | _ => true
  end.

Fixpoint min_len (r : Re.regex) : nat :=
  match r with
  | Re.Chr _ => 1
  | Re.Seq a b => min_len a + min_len b
  | Re.Rep _ lo _ => lo
  | Re.Group a => min_len a
  | _ => 0
  end.

Fixpoint consumes (r : Re.regex) (c : ascii) : bool :=
  match r with
  | Re.Chr p | Re.Rep p _ _ => p c
  | Re.Seq a b => consumes a c || consumes b c
  | Re.Opt a | Re.Group a => consumes a c
  | _ => false
  end.

Definition ip_char (c : ascii) : bool := Text.re_digit c || Ascii.eqb c ".".

Definition ip_like (k : string) : Prop :=
  (7 ≤ String.length k)%nat ∧ Text.all_chars ip_char k = true.

(** ** [app.py]: what [analyze] renders from the written result

    The handler reads back the JSON object the analyzer wrote (read here as
    the same mapping) and passes the template either a fixed message without
    a chart, or the data with a chart. *)

Record rendered : Type := Rendered {
  shown : gmap string json_value;
  chart : bool
}.

Definition NO_FINDINGS : gmap string json_value :=
  {[ "message" := JStr "No suspicious IPs or attacks detected in this file." ]}.

(** [if not data or "message" in data: ...] and the final [render_template]. *)
Definition render_results (data : gmap string json_value) : rendered :=
  if bool_decide (data = ∅) || bool_decide (is_Some (data !! "message"))
  then Rendered NO_FINDINGS false
  else Rendered data true.

(** The last character of [s] satisfies [p]. *)
Fixpoint ends_with (p : ascii → bool) (s : string) : bool :=
  match s with
  | EmptyString => false
  | String c EmptyString => p c
  | String _ s' => ends_with p s'
  end.

Definition TEXT_KINDS : list string := [".csv"; ".log"; ".txt"].

(** Three lines of a text file, the second blank, and a file system whose
    text files hold them. *)
Definition three_lines_content : list string :=
  [String.append "sshd: x" (String Text.newline EmptyString);
   String.append "  " (String Text.newline EmptyString);
   "last line"].

Definition three_lines : FileSystem := {|
  open_lines := λ _, inr three_lines_content;
  read_excel := λ _, inr [];
  json_load := λ _, inr (JsonOther EmptyString)
|}.

(** Blank lines only, and a file system whose text files hold them. *)
Definition blank_content : list string :=
  [String Text.newline EmptyString; String.append "  " (String Text.newline EmptyString)].

Definition blank_file : FileSystem := {|
  open_lines := λ _, inr blank_content;
  read_excel := λ _, inr [];
  json_load := λ _, inr (JsonOther EmptyString)
|}.

(** A row is counted by [row_step]: it is not skipped and either its usable
    attack value is outside the benign set or, without a usable attack
    value, one of its last six cells is textual. *)
Definition row_counted (df : DataFrame) (src_col : string) (attack_col : option string)
    (row : list string) : bool :=
  negb (skipped (src_value df src_col row))
  && (if attack_usable df attack_col row
      then negb (in_list (attack_value df attack_col row) BENIGN)
      else tail_textual row).

(** The source values of the counted rows, in row order. *)
Definition row_hits (df : DataFrame) (src_col : string) (attack_col : option string)
    (rows : list (list string)) : list string :=
  map (src_value df src_col) (filter (λ row, row_counted df src_col attack_col row = true) rows).

(** A frame read from a file without header: numeric tokens as labels. *)
Definition headerless : DataFrame :=
  mkFrame ["10"; " 443 "; "7"] [["20"]; ["80"]; ["9"]] [["20"; "80"; "9"]].

Definition SHEET_KINDS : list string := [".xlsx"; ".xls"].

(** A sheet of two rows and two columns, the file system that holds it, and
    the records the loader makes of it. *)
Definition small_sheet : list (list (bool * string)) :=
  [[(false, "10.0.0.1"); (false, "exploit")]; [(false, "10.0.0.2"); (true, "nan")]].

Definition sheet_fs : FileSystem := {|
  open_lines := λ _, inr [];
  read_excel := λ _, inr small_sheet;
  json_load := λ _, inr (JsonOther EmptyString)
|}.

Definition small_sheet_records : list string :=
  [String.append "10.0.0.1" (String Text.tab "exploit");
   String.append "10.0.0.2" (String Text.tab "nan")].

(** * Properties *)

(** ** The patterns on examples *)

Example findall_two_ips :
  Re.findall IP_REGEX "seen 1.1.1.1 and 2.2.2.2" = ["1.1.1.1"; "2.2.2.2"].
Proof. vm_compute. reflexivity. Qed.

Example findall_long_run :
  Re.findall IP_REGEX "x1234.5.6.7890y" = ["234.5.6.789"].
Proof. vm_compute. reflexivity. Qed.

Example failed_group :
  Re.group1 <$> Re.search FAILED_PASSWORD
    "sshd: Failed password for root from 10.0.0.5 port 22 from 9.9.9.9 x"
  = Some "9.9.9.9".
Proof. vm_compute. reflexivity. Qed.

Example numeric_examples :
  map (Re.matches NUMERIC) ["12"; "-3.50"; "5.5.5.5"; "1."; ""; "abc"; "7e3"]
  = [true; true; false; false; false; false; false].
Proof. vm_compute. reflexivity. Qed.

Example strip_example : Text.strip "  Ab c  " = "Ab c" ∧ Text.lower "Ab c" = "ab c".
Proof. vm_compute. split; reflexivity. Qed.

(** ** Lists *)

Lemma lookup_map {A B} (f : A → B) (l : list A) (i : nat) :
  map f l !! i = f <$> (l !! i).
Proof.
  revert i. induction l as [|x l IH]; intros [|i]; simpl; auto.
Qed.

Lemma elem_of_map {A B} (f : A → B) (l : list A) (y : B) :
  y ∈ map f l ↔ ∃ x, y = f x ∧ x ∈ l.
Proof.
  rewrite list_elem_of_In, in_map_iff. split.
  - intros (x & <- & Hx). exists x. by rewrite list_elem_of_In.
  - intros (x & -> & Hx). exists x. by rewrite <- list_elem_of_In.
Qed.

Lemma sumZ_Permutation (l l' : list Z) : l ≡ₚ l' → sumZ l = sumZ l'.
Proof.
  induction 1; simpl; lia.
Qed.

(** ** Tallies *)

Lemma occurrences_cons k x l :
  occurrences k (x :: l) = ((if decide (x = k) then 1 else 0) + occurrences k l)%nat.
Proof.
  unfold occurrences. simpl.
  destruct (String.string_dec x k), (decide (x = k)); congruence || lia.
Qed.

Lemma occurrences_pos k l : (0 < occurrences k l)%nat ↔ k ∈ l.
Proof.
  unfold occurrences. rewrite list_elem_of_In. symmetry. apply count_occ_In.
Qed.

Lemma lookup_incr (t : tally) ip k :
  incr t ip !! k = if decide (k = ip) then Some (get k t + 1) else t !! k.
Proof.
  unfold incr. destruct (decide (k = ip)) as [->|Hne].
  - by rewrite lookup_insert_eq.
  - by rewrite lookup_insert_ne.
Qed.

Lemma get_incr (t : tally) ip k :
  get k (incr t ip) = get k t + (if decide (k = ip) then 1 else 0).
Proof.
  unfold get at 1. rewrite lookup_incr.
  destruct (decide (k = ip)); simpl; [done|]. unfold get. lia.
Qed.

(** The tally after counting a list of hits, key by key. *)
Lemma lookup_incr_all (ips : list string) (t : tally) k :
  incr_all t ips !! k =
    if decide (occurrences k ips = 0%nat) then t !! k
    else Some (get k t + Z.of_nat (occurrences k ips)).
Proof.
  unfold incr_all. revert t. induction ips as [|ip ips IH]; intros t; cbn [foldl].
  - done.
  - rewrite IH, occurrences_cons. clear IH.
    rewrite get_incr, lookup_incr.
    repeat case_decide; subst; try congruence; try lia; f_equal; lia.
Qed.

Lemma opt_add_comm x y : opt_add x y = opt_add y x.
Proof. destruct x, y; simpl; f_equal; lia. Qed.

Lemma opt_add_assoc x y z : opt_add (opt_add x y) z = opt_add x (opt_add y z).
Proof. destruct x, y, z; simpl; f_equal; lia. Qed.

Lemma lookup_merge_into (a b : tally) k :
  merge_into a b !! k = opt_add (a !! k) (b !! k).
Proof.
  unfold merge_into. revert k.
  apply (map_fold_weak_ind
           (λ (acc : tally) (m : tally), ∀ k, acc !! k = opt_add (a !! k) (m !! k))).
  - intros k. rewrite lookup_empty. destruct (a !! k); simpl; f_equal; lia.
  - intros i x m r Hi IH k. destruct (decide (k = i)) as [->|Hne].
    + rewrite !lookup_insert_eq. unfold get. rewrite IH, Hi.
      destruct (a !! i); simpl; f_equal; lia.
    + rewrite !lookup_insert_ne by done. apply IH.
Qed.

Lemma merge_into_comm (a b : tally) : merge_into a b = merge_into b a.
Proof. apply map_eq. intros k. rewrite !lookup_merge_into. apply opt_add_comm. Qed.

Lemma merge_into_assoc (a b c : tally) :
  merge_into (merge_into a b) c = merge_into a (merge_into b c).
Proof. apply map_eq. intros k. rewrite !lookup_merge_into. apply opt_add_assoc. Qed.

Lemma lookup_foldl_merge (ts : list tally) (acc : tally) k :
  foldl merge_into acc ts !! k = opt_add (acc !! k) (total (counts k ts)).
Proof.
  revert acc. induction ts as [|t ts IH]; intros acc; simpl.
  - destruct (acc !! k); simpl; f_equal; lia.
  - rewrite IH, lookup_merge_into. unfold counts. simpl.
    destruct (t !! k) as [c|]; simpl.
    + fold (counts k ts). destruct (acc !! k), (counts k ts); simpl; f_equal; lia.
    + fold (counts k ts). destruct (acc !! k), (counts k ts); simpl; f_equal; lia.
Qed.

Lemma lookup_merge_all (ts : list tally) k :
  merge_all ts !! k = total (counts k ts).
Proof.
  unfold merge_all. rewrite lookup_foldl_merge, lookup_empty.
  destruct (counts k ts); simpl; f_equal; lia.
Qed.

Lemma total_Permutation (l l' : list Z) : l ≡ₚ l' → total l = total l'.
Proof.
  intros H. destruct l, l'; simpl; try done.
  - by apply Permutation_nil_cons in H.
  - symmetry in H. by apply Permutation_nil_cons in H.
  - f_equal. apply (sumZ_Permutation _ _ H).
Qed.

Lemma merge_all_Permutation (ts ts' : list tally) :
  ts ≡ₚ ts' → merge_all ts = merge_all ts'.
Proof.
  intros H. apply map_eq. intros k. rewrite !lookup_merge_all.
  apply total_Permutation. unfold counts. by rewrite H.
Qed.

Lemma aggregate_nonempty (ts : list tally) :
  merge_all ts ≠ ∅ → aggregate ts = JInt <$> merge_all ts.
Proof. intros H. unfold aggregate. by rewrite bool_decide_eq_false_2. Qed.

Lemma aggregate_empty (ts : list tally) :
  merge_all ts = ∅ → aggregate ts = sentinel.
Proof. intros H. unfold aggregate. by rewrite bool_decide_eq_true_2. Qed.

Lemma fmap_JInt_not_sentinel (m : tally) : JInt <$> m ≠ sentinel.
Proof.
  intros H. assert (Hl : (JInt <$> m) !! "message" = sentinel !! "message") by by rewrite H.
  rewrite lookup_fmap in Hl. unfold sentinel in Hl. rewrite lookup_singleton_eq in Hl.
  destruct (m !! "message"); simpl in Hl; congruence.
Qed.

(** C3. The aggregator binds every key found in some tally to the sum of its
    counts over the tallies that contain it and no other key; it returns the
    sentinel exactly when the merged mapping is empty, the merged mapping
    otherwise; the result does not depend on the order of the tallies, and
    merging two tallies is commutative and associative. *)
Theorem aggregate_sums_counts (ts : list tally) :
  (∀ k, merge_all ts !! k = total (counts k ts))
  ∧ (aggregate ts = sentinel ↔ merge_all ts = ∅)
  ∧ (merge_all ts ≠ ∅ → aggregate ts = JInt <$> merge_all ts)
  ∧ (∀ ts', ts ≡ₚ ts' → aggregate ts' = aggregate ts)
  ∧ (∀ a b c : tally,
        merge_into a b = merge_into b a
        ∧ merge_into (merge_into a b) c = merge_into a (merge_into b c)).
Proof.
  split; [apply lookup_merge_all|].
  split.
  { split; [|apply aggregate_empty].
    intros H. destruct (decide (merge_all ts = ∅)) as [|Hne]; [done|].
    rewrite (aggregate_nonempty _ Hne) in H. by apply fmap_JInt_not_sentinel in H. }
  split; [apply aggregate_nonempty|].
  split.
  { intros ts' H. unfold aggregate. by rewrite (merge_all_Permutation _ _ H). }
  intros a b c. split; [apply merge_into_comm|apply merge_into_assoc].
Qed.

(** ** Round-robin partitioning *)

(** [l[wait::step]] holds, at position [j], the element of [l] at index
    [wait + j * step]. *)
Lemma lookup_stride {A} (step : nat) (l : list A) :
  (1 ≤ step)%nat →
  ∀ wait j, stride step wait l !! j = l !! (wait + j * step)%nat.
Proof.
  intros Hstep. induction l as [|x l IH]; intros wait j.
  - by destruct wait.
  - destruct wait as [|w]; simpl.
    + destruct j as [|j]; simpl; [done|].
      rewrite IH. destruct step as [|s]; [lia|]. simpl.
      f_equal. lia.
    + apply IH.
Qed.

Lemma length_partition {A} (size : nat) (logs : list A) :
  length (partition size logs) = size.
Proof. unfold partition. by rewrite length_map, length_seq. Qed.

Lemma lookup_partition {A} (size : nat) (logs : list A) (p : nat) :
  (p < size)%nat → partition size logs !! p = Some (stride size p logs).
Proof.
  intros Hp. unfold partition. by rewrite lookup_map, lookup_seq_lt.
Qed.

Lemma lookup_partition_inv {A} (size : nat) (logs : list A) (p : nat) chunk :
  partition size logs !! p = Some chunk → (p < size)%nat ∧ chunk = stride size p logs.
Proof.
  intros H. assert (Hp : (p < size)%nat).
  { apply lookup_lt_Some in H. by rewrite length_partition in H. }
  rewrite lookup_partition in H by done. split; congruence.
Qed.

Lemma map_stride_shift {A} (size : nat) (x : A) (l : list A) (n : nat) :
  map (λ i, stride size i (x :: l)) (seq 1 n) = map (λ i, stride size i l) (seq 0 n).
Proof.
  rewrite <- seq_shift, map_map. done.
Qed.

Lemma stride_map {A B} (f : A → B) (step : nat) (l : list A) :
  ∀ wait, stride step wait (map f l) = map f (stride step wait l).
Proof.
  induction l as [|x l IH]; intros [|w]; simpl; try done.
  - by rewrite IH.
Qed.

Lemma partition_map {A B} (f : A → B) (size : nat) (l : list A) :
  partition size (map f l) = map (map f) (partition size l).
Proof.
  unfold partition. rewrite map_map. apply map_ext. intros i. apply stride_map.
Qed.

Lemma map_nth_indices {A} (d : A) (l : list A) :
  map (λ i, nth i l d) (seq 0 (length l)) = l.
Proof.
  induction l as [|x l IH]; [done|].
  simpl. f_equal. rewrite <- seq_shift, map_map. exact IH.
Qed.

(** The chunks together hold exactly the records, each as often as the
    input does. *)
Lemma concat_partition_Permutation {A} (size : nat) (logs : list A) :
  (1 ≤ size)%nat → concat (partition size logs) ≡ₚ logs.
Proof.
  intros Hsize. destruct size as [|s]; [lia|]. clear Hsize.
  induction logs as [|x l IH].
  - unfold partition. induction (seq 0 (S s)) as [|i rest IHs]; [done|].
    simpl. by destruct i.
  - unfold partition in *.
    change (seq 0 (S s)) with (0%nat :: seq 1 s) at 1.
    rewrite map_cons, map_stride_shift. cbn [concat].
    change (stride (S s) 0 (x :: l)) with (x :: stride (S s) (S s - 1) l).
    rewrite seq_S, map_app, concat_app in IH. simpl in IH.
    rewrite app_nil_r in IH. replace (S s - 1)%nat with s by lia. simpl.
    constructor. etrans; [apply Permutation_app_comm|exact IH].
Qed.

(** C2. With [W >= 1] workers the partitioner makes [W] chunks; chunk [p]
    holds at position [j] the record of index [p + j * W], so the record of
    index [i] sits in chunk [i mod W] (at position [i / W]); the chunks of
    indices are pairwise disjoint and the chunks together are a
    rearrangement of the input. Being a function of [W] and the list it is
    deterministic. *)
Theorem partition_round_robin (W : nat) (logs : list string) :
  (1 ≤ W)%nat →
  length (partition W logs) = W
  ∧ (∀ p j, (p < W)%nat →
       partition W logs !! p ≫= (λ chunk, chunk !! j) = logs !! (p + j * W)%nat)
  ∧ (∀ i x, logs !! i = Some x →
       ∃ chunk, partition W logs !! (i mod W)%nat = Some chunk
                ∧ chunk !! (i / W)%nat = Some x)
  ∧ (∀ p q ip iq i,
       partition W (seq 0 (length logs)) !! p = Some ip →
       partition W (seq 0 (length logs)) !! q = Some iq →
       i ∈ ip → i ∈ iq → p = q)
  ∧ partition W logs
    = map (map (λ i, nth i logs EmptyString)) (partition W (seq 0 (length logs)))
  ∧ concat (partition W logs) ≡ₚ logs.
Proof.
  intros HW. split; [apply length_partition|].
  split.
  { intros p j Hp. rewrite lookup_partition by done. simpl.
    by apply lookup_stride. }
  split.
  { intros i x Hi. exists (stride W (i mod W) logs).
    split; [apply lookup_partition, Nat.mod_upper_bound; lia|].
    rewrite lookup_stride by done. rewrite <- Hi. f_equal.
    rewrite (Nat.div_mod_eq i W) at 3. lia. }
  assert (Hres : ∀ p c i, partition W (seq 0 (length logs)) !! p = Some c →
                          i ∈ c → (i mod W)%nat = p).
  { intros p c i Hc Hi. apply lookup_partition_inv in Hc as [Hp ->].
    apply list_elem_of_lookup in Hi as [j Hj].
    rewrite lookup_stride in Hj by done. apply lookup_seq in Hj as [-> _].
    rewrite Nat.add_0_l, Nat.Div0.mod_add. by apply Nat.mod_small. }
  split.
  { intros p q ip iq i Hp Hq Hi Hi'.
    rewrite <- (Hres _ _ _ Hp Hi). apply (Hres _ _ _ Hq Hi'). }
  split; [|by apply concat_partition_Permutation].
  rewrite <- partition_map. by rewrite map_nth_indices.
Qed.

(** ** Counts are positive *)

Lemma positive_empty : positive ∅.
Proof. intros k n. by rewrite lookup_empty. Qed.

Lemma get_nonneg (t : tally) k : positive t → 0 ≤ get k t.
Proof.
  intros H. unfold get. destruct (t !! k) as [n|] eqn:E; simpl; [|lia].
  specialize (H _ _ E). lia.
Qed.

Lemma positive_incr (t : tally) ip : positive t → positive (incr t ip).
Proof.
  intros H k n. rewrite lookup_incr. case_decide.
  - intros [= <-]. pose proof (get_nonneg t k H). lia.
  - apply H.
Qed.

Lemma positive_foldl {X} (f : tally → X → tally) (l : list X) :
  (∀ t x, positive t → positive (f t x)) →
  ∀ t, positive t → positive (foldl f t l).
Proof.
  intros Hf. induction l as [|x l IH]; intros t Ht; simpl; [done|].
  apply IH, Hf, Ht.
Qed.

Lemma positive_incr_all (t : tally) ips : positive t → positive (incr_all t ips).
Proof. apply positive_foldl. intros. by apply positive_incr. Qed.

Lemma positive_row_step df src_col attack_col (t : tally) row :
  positive t → positive (row_step df src_col attack_col t row).
Proof.
  intros H. unfold row_step.
  repeat match goal with |- context [if ?b then _ else _] => destruct b end;
    auto using positive_incr.
Qed.

Lemma positive_freq_fallback df src_col (t : tally) :
  positive t → positive (freq_fallback df src_col t).
Proof.
  unfold freq_fallback. apply positive_foldl. intros t' ip Ht'.
  destruct (Re.matches IP_REGEX ip && _) eqn:E; [|done].
  apply andb_true_iff in E as [_ E]. apply Nat.ltb_lt in E.
  intros k n. destruct (decide (k = ip)) as [->|Hne].
  - rewrite lookup_insert_eq. intros [= <-]. lia.
  - rewrite lookup_insert_ne by done. apply Ht'.
Qed.

Lemma positive_tabular_scan parsed (t : tally) :
  tabular_scan parsed = Some t → positive t.
Proof.
  unfold tabular_scan. destruct (find_src_col _) as [src_col|]; [|done].
  intros [= <-].
  assert (positive (foldl
            (row_step (set_columns (normalize_columns (columns parsed)) parsed)
               src_col
               (find_attack_col (set_columns (normalize_columns (columns parsed)) parsed)))
            ∅ (row_text (set_columns (normalize_columns (columns parsed)) parsed)))) as Hrows.
  { apply positive_foldl; [|apply positive_empty].
    intros. by apply positive_row_step. }
  destruct (bool_decide _ && _); [|done]. by apply positive_freq_fallback.
Qed.

Lemma positive_free_form log_chunk : positive (free_form log_chunk).
Proof.
  unfold free_form. apply positive_foldl; [|apply positive_empty].
  intros t line Ht. unfold free_form_line.
  destruct (Re.search _ _); [by apply positive_incr|by apply positive_incr_all].
Qed.

Lemma positive_regex_fallback (t : tally) log_chunk :
  positive t → positive (regex_fallback t log_chunk).
Proof.
  unfold regex_fallback. apply positive_foldl. intros. by apply positive_incr_all.
Qed.

Lemma positive_analyze_logs sniff read_csv log_chunk :
  positive (analyze_logs sniff read_csv log_chunk).
Proof.
  unfold analyze_logs. destruct (is_tabular _); [|apply positive_free_form].
  unfold tabular_attempt.
  destruct (read_csv _ _) as [df|]; simpl.
  - destruct (tabular_scan df) as [t|] eqn:E.
    + by apply positive_tabular_scan in E.
    + apply positive_regex_fallback, positive_empty.
  - apply positive_regex_fallback, positive_empty.
Qed.

Lemma positive_merge_into (a b : tally) :
  positive a → positive b → positive (merge_into a b).
Proof.
  intros Ha Hb k n. rewrite lookup_merge_into.
  destruct (a !! k) as [x|] eqn:Ea, (b !! k) as [y|] eqn:Eb; simpl; try done;
    intros [= <-];
    try (specialize (Ha _ _ Ea)); try (specialize (Hb _ _ Eb)); lia.
Qed.

Lemma positive_merge_all (ts : list tally) :
  Forall positive ts → positive (merge_all ts).
Proof.
  unfold merge_all. generalize (positive_empty). generalize (∅ : tally).
  induction ts as [|t ts IH]; intros acc Hacc Hts; simpl; [done|].
  inversion Hts; subst. apply IH; [|done]. by apply positive_merge_into.
Qed.

(** C10. Whatever the sniffer and the parser return, the detector's tally
    binds every key to a strictly positive count, the empty partition gives
    the empty tally, merging keeps counts positive, and a result that is not
    the sentinel binds every key to a positive integer. *)
Theorem counts_strictly_positive
    (sniff : string → option string) (read_csv : string → string → option DataFrame) :
  (∀ log_chunk k n, analyze_logs sniff read_csv log_chunk !! k = Some n → 0 < n)
  ∧ analyze_logs sniff read_csv [] = ∅
  ∧ (∀ ts, Forall positive ts → positive (merge_all ts))
  ∧ (∀ size logs k v,
       pipeline sniff read_csv size logs ≠ sentinel →
       pipeline sniff read_csv size logs !! k = Some v →
       ∃ n, v = JInt n ∧ 0 < n).
Proof.
  split; [intros c; apply positive_analyze_logs|].
  split; [reflexivity|].
  split; [apply positive_merge_all|].
  intros size logs k v Hne Hk. unfold pipeline in *.
  set (ts := map (analyze_logs sniff read_csv) (partition size logs)) in *.
  destruct (decide (merge_all ts = ∅)) as [He|He].
  { by rewrite aggregate_empty in Hne. }
  rewrite aggregate_nonempty, lookup_fmap in Hk by done.
  destruct (merge_all ts !! k) as [n|] eqn:E; simpl in Hk; [|done].
  injection Hk as <-. exists n. split; [done|].
  refine (positive_merge_all ts _ k n E).
  apply Forall_forall. intros t Ht. unfold ts in Ht.
  apply elem_of_map in Ht as (c & -> & _). apply positive_analyze_logs.
Qed.

(** ** The free-form detector and the handler, as counting *)

Lemma free_form_line_hits (t : tally) line :
  free_form_line t line = incr_all t (hits line).
Proof. unfold free_form_line, hits. by destruct (Re.search _ _). Qed.

Lemma incr_all_app (t : tally) l1 l2 :
  incr_all t (l1 ++ l2) = incr_all (incr_all t l1) l2.
Proof. apply foldl_app. Qed.

Lemma foldl_incr_all (f : string → list string) (l : list string) (t : tally) :
  foldl (λ t line, incr_all t (f line)) t l = incr_all t (concat (map f l)).
Proof.
  revert t. induction l as [|x l IH]; intros t; simpl; [done|].
  by rewrite IH, incr_all_app.
Qed.

Lemma free_form_counts log_chunk :
  free_form log_chunk = incr_all ∅ (all_hits log_chunk).
Proof.
  unfold free_form, all_hits. rewrite <- foldl_incr_all.
  generalize (∅ : tally). induction log_chunk as [|line l IH]; intros t; simpl; [done|].
  by rewrite IH, free_form_line_hits.
Qed.

Lemma regex_fallback_counts (t : tally) log_chunk :
  regex_fallback t log_chunk = incr_all t (all_ips log_chunk).
Proof. apply foldl_incr_all. Qed.

Lemma lookup_counted (l : list string) k : incr_all ∅ l !! k = count_of k l.
Proof.
  rewrite lookup_incr_all. unfold count_of, get. rewrite lookup_empty. simpl.
  by case_decide.
Qed.

(** C7. In the free-form detector a record matching the failed-password
    pattern adds one to the count of the captured IP and changes nothing
    else; a record that does not match adds, to each key, the number of times
    it occurs among the IP-shaped substrings of the record; a partition
    classified free-form is processed record by record in this way; the two
    single-line scenarios give the tallies of the specification. *)
Theorem free_form_line_counts
    (sniff : string → option string) (read_csv : string → string → option DataFrame) :
  (∀ (t : tally) line m, Re.search FAILED_PASSWORD line = Some m →
     ∀ k, free_form_line t line !! k
          = if decide (k = Re.group1 m) then Some (get k t + 1) else t !! k)
  ∧ (∀ (t : tally) line, Re.search FAILED_PASSWORD line = None →
       ∀ k, free_form_line t line !! k
            = if decide (occurrences k (Re.findall IP_REGEX line) = 0%nat) then t !! k
              else Some (get k t + Z.of_nat (occurrences k (Re.findall IP_REGEX line))))
  ∧ (∀ log_chunk, is_tabular (chunk_sample log_chunk) = false →
       analyze_logs sniff read_csv log_chunk = foldl free_form_line ∅ log_chunk)
  ∧ analyze_logs sniff read_csv
      ["Jan 1 00:00:00 host sshd: Failed password for root from 10.0.0.5 port 22"]
    = {[ "10.0.0.5" := 1 ]}
  ∧ analyze_logs sniff read_csv ["seen 1.1.1.1 and 2.2.2.2"]
    = {[ "1.1.1.1" := 1; "2.2.2.2" := 1 ]}.
Proof.
  split.
  { intros t line m Hm k. unfold free_form_line. rewrite Hm. apply lookup_incr. }
  split.
  { intros t line Hm k. unfold free_form_line. rewrite Hm. apply lookup_incr_all. }
  split.
  { intros c Hc. unfold analyze_logs. by rewrite Hc. }
  split; vm_compute; reflexivity.
Qed.

(** ** The handler of a failed tabular attempt *)

(** C5, as stated, fails: on a tabular partition whose parse raises (as it
    does under a parser that always raises, and under any that rejects the
    third line for its extra field), the handler counts both addresses of
    the third line, the free-form detector only the one the failed-password
    pattern captures. *)
Lemma fallback_is_not_free_form :
  is_tabular (chunk_sample ragged_chunk) = true
  ∧ free_form ragged_chunk = {[ "1.1.1.1" := 1 ]}
  ∧ tabular_attempt (λ _, None) (λ _ _, None) ragged_chunk = None
  ∧ ∀ sniff read_csv,
      tabular_attempt sniff read_csv ragged_chunk = None →
      analyze_logs sniff read_csv ragged_chunk = {[ "1.1.1.1" := 1; "2.2.2.2" := 1 ]}
      ∧ analyze_logs sniff read_csv ragged_chunk ≠ free_form ragged_chunk.
Proof.
  split; [vm_compute; reflexivity|].
  split; [vm_compute; reflexivity|].
  split; [reflexivity|].
  intros sniff read_csv H.
  assert (analyze_logs sniff read_csv ragged_chunk = regex_fallback ∅ ragged_chunk) as ->.
  { unfold analyze_logs. rewrite H.
    by replace (is_tabular (chunk_sample ragged_chunk)) with true by (vm_compute; reflexivity). }
  split; [vm_compute; reflexivity|].
  intros E. apply (f_equal (λ t : tally, t !! "2.2.2.2")) in E.
  vm_compute in E. discriminate.
Qed.

(** C5, amended. When the tabular attempt on a partition classified
    tabular raises, the detector returns the tally of every IP-shaped
    substring of every record of the raw partition: a key is bound exactly
    when it occurs among them, to the number of its occurrences. No
    failed-password match is tried and nothing is raised. *)
Theorem fallback_counts_every_ip
    (sniff : string → option string) (read_csv : string → string → option DataFrame)
    (log_chunk : list string) :
  is_tabular (chunk_sample log_chunk) = true →
  tabular_attempt sniff read_csv log_chunk = None →
  analyze_logs sniff read_csv log_chunk = regex_fallback ∅ log_chunk
  ∧ ∀ k, analyze_logs sniff read_csv log_chunk !! k = count_of k (all_ips log_chunk).
Proof.
  intros Htab Hraise.
  assert (analyze_logs sniff read_csv log_chunk = regex_fallback ∅ log_chunk) as E.
  { unfold analyze_logs. by rewrite Htab, Hraise. }
  split; [done|]. intros k.
  by rewrite E, regex_fallback_counts, lookup_counted.
Qed.

Lemma fallback_counts_every_ip_witness :
  analyze_logs (λ _, None) (λ _ _, None) ragged_chunk = regex_fallback ∅ ragged_chunk
  ∧ ∀ k, analyze_logs (λ _, None) (λ _ _, None) ragged_chunk !! k
         = count_of k (all_ips ragged_chunk).
Proof.
  apply (fallback_counts_every_ip (λ _, None) (λ _ _, None) ragged_chunk);
    vm_compute; reflexivity.
Defined.

(** ** Worker-count invariance *)

Lemma merge_into_counted (acc : tally) (l : list string) :
  merge_into acc (incr_all ∅ l) = incr_all acc l.
Proof.
  apply map_eq. intros k.
  rewrite lookup_merge_into, lookup_counted, lookup_incr_all.
  unfold count_of, get. case_decide; destruct (acc !! k); simpl; f_equal; lia.
Qed.

Lemma all_hits_app l1 l2 : all_hits (l1 ++ l2) = all_hits l1 ++ all_hits l2.
Proof. unfold all_hits. by rewrite map_app, concat_app. Qed.

(** Merging the free-form tallies of the chunks is the free-form tally of
    the chunks laid end to end. *)
Lemma merge_free_form (chunks : list (list string)) :
  merge_all (map free_form chunks) = free_form (concat chunks).
Proof.
  unfold merge_all. rewrite (free_form_counts (concat chunks)).
  generalize (∅ : tally).
  induction chunks as [|c chunks IH]; intros acc; simpl; [done|].
  rewrite IH, free_form_counts, merge_into_counted, all_hits_app.
  by rewrite incr_all_app.
Qed.

Lemma all_hits_Permutation l l' : l ≡ₚ l' → all_hits l ≡ₚ all_hits l'.
Proof.
  unfold all_hits. induction 1 as [|x l l' _ IH|x y l|l l' l'' _ IH1 _ IH2]; simpl.
  - done.
  - by apply Permutation_app_head.
  - rewrite !app_assoc. apply Permutation_app_tail, Permutation_app_comm.
  - by etrans.
Qed.

Lemma free_form_Permutation l l' : l ≡ₚ l' → free_form l = free_form l'.
Proof.
  intros H. apply map_eq. intros k.
  rewrite !free_form_counts, !lookup_counted. unfold count_of, occurrences.
  pose proof (proj1 (Permutation_count_occ String.string_dec (all_hits l) (all_hits l'))
                (all_hits_Permutation _ _ H) k) as E.
  by rewrite E.
Qed.

Lemma pipeline_free_form sniff read_csv (size : nat) (logs : list string) :
  (1 ≤ size)%nat → all_free_form size logs →
  pipeline sniff read_csv size logs = aggregate [free_form logs].
Proof.
  intros Hsize Hfree. unfold pipeline, aggregate.
  assert (merge_all (map (analyze_logs sniff read_csv) (partition size logs))
          = free_form logs) as ->.
  { rewrite (map_ext_in _ free_form).
    - rewrite merge_free_form. apply free_form_Permutation.
      by apply concat_partition_Permutation.
    - intros c Hc. apply list_elem_of_In in Hc.
      unfold analyze_logs. by rewrite (Hfree c Hc). }
  assert (merge_all [free_form logs] = free_form logs) as ->; [|done].
  pose proof (merge_free_form [logs]) as E. cbn [map concat] in E.
  by rewrite app_nil_r in E.
Qed.

Lemma column_no_rows (df : DataFrame) (label : string) :
  Forall (λ c, c = []) (col_text df) → column df label = [].
Proof.
  intros H. unfold column. destruct (index_of _ _) as [j|]; [|done].
  destruct (col_text df !! j) as [c|] eqn:E; simpl; [|done].
  rewrite Forall_forall in H. apply H. by eapply list_elem_of_lookup_2.
Qed.

Lemma tabular_scan_no_rows (df : DataFrame) :
  row_text df = [] → Forall (λ c, c = []) (col_text df) →
  tabular_scan df = None ∨ tabular_scan df = Some ∅.
Proof.
  intros Hrows Hcols. unfold tabular_scan.
  destruct (find_src_col _) as [src|]; [right|by left].
  cbn [row_text set_columns]. rewrite Hrows. cbn [foldl].
  rewrite bool_decide_eq_true_2 by done. destruct (truthy src); [|done].
  unfold freq_fallback. by rewrite column_no_rows.
Qed.

(** C1, as stated, fails. With one worker the first ten records make the
    sample, the partition is free-form and the last record counts its
    captured address once. With eleven workers that record is a partition of
    its own, classified tabular by its comma: parsed, it is a header without
    rows and adds nothing; if the parse raises, the handler counts both of
    its addresses. Either way the result differs from the one-worker run,
    for every parser that treats a one-line text as a header (such as the
    one of the second part). *)
Lemma worker_count_changes_result :
  (∀ sniff read_csv, header_only read_csv failed_line →
     run sniff read_csv 1 burst_logs = Some (JInt <$> {[ "1.1.1.1" := 1 ]})
     ∧ run sniff read_csv 1 burst_logs ≠ run sniff read_csv 11 burst_logs)
  ∧ header_only
      (λ _ _, Some (mkFrame ["Failed password for a from 1.1.1.1"; " 2.2.2.2"] [[]; []] []))
      failed_line.
Proof.
  split; [|intros sep; simpl; split; [done|by repeat constructor]].
  intros sniff read_csv Hparse.
  assert (pipeline sniff read_csv 1 burst_logs = JInt <$> {[ "1.1.1.1" := 1 ]}) as E1.
  { vm_compute. reflexivity. }
  assert (analyze_logs sniff read_csv [failed_line] = ∅
          ∨ analyze_logs sniff read_csv [failed_line] = regex_fallback ∅ [failed_line])
    as Hlast.
  { unfold analyze_logs.
    replace (is_tabular (chunk_sample [failed_line])) with true by (vm_compute; reflexivity).
    unfold tabular_attempt.
    change (Text.lines_text [failed_line]) with failed_line.
    specialize (Hparse (sniff_delimiter sniff (chunk_sample [failed_line]))).
    destruct (read_csv failed_line _) as [df|]; simpl; [|by right].
    destruct Hparse as [Hrows Hcols].
    destruct (tabular_scan_no_rows df Hrows Hcols) as [-> | ->]; [by right|by left]. }
  assert (pipeline sniff read_csv 11 burst_logs
          = aggregate (replicate 10 ∅ ++ [analyze_logs sniff read_csv [failed_line]])) as E11.
  { unfold pipeline. f_equal. }
  assert (∀ size, run sniff read_csv size burst_logs
                  = Some (pipeline sniff read_csv size burst_logs)) as Hrun
    by reflexivity.
  rewrite !Hrun, E1. split; [done|]. intros E.
  apply (inj Some) in E. rewrite E11 in E. clear E1 E11 Hrun.
  destruct Hlast as [Hl|Hl]; rewrite Hl in E; clear Hl.
  - apply (f_equal (λ m : gmap string json_value, m !! "1.1.1.1")) in E.
    vm_compute in E. discriminate.
  - apply (f_equal (λ m : gmap string json_value, m !! "2.2.2.2")) in E.
    vm_compute in E. discriminate.
Qed.

(** C1, amended. For worker counts [W1, W2 >= 1] under which every
    partition of both runs is classified free-form, the two runs give the
    same result: the free-form tally of the whole input, or the sentinel in
    both. *)
Theorem free_form_runs_agree
    (sniff : string → option string) (read_csv : string → string → option DataFrame)
    (logs : list string) (W1 W2 : nat) :
  (1 ≤ W1)%nat → (1 ≤ W2)%nat →
  all_free_form W1 logs → all_free_form W2 logs →
  run sniff read_csv W1 logs = run sniff read_csv W2 logs
  ∧ pipeline sniff read_csv W1 logs = aggregate [free_form logs].
Proof.
  intros H1 H2 F1 F2. split; [|by apply pipeline_free_form].
  unfold run. destruct logs; [done|].
  by rewrite !pipeline_free_form.
Qed.

(** ** Plain records are never sniffed as a table *)

Lemma all_chars_app (p : ascii → bool) (a b : string) :
  Text.all_chars p (a +:+ b) = Text.all_chars p a && Text.all_chars p b.
Proof.
  induction a as [|c a IH]; simpl; [done|]. rewrite IH. by destruct (p c).
Qed.

Lemma starts_space_app (a b : string) :
  starts_space (a +:+ b) = if Text.is_empty a then starts_space b else starts_space a.
Proof. by destruct a. Qed.

Lemma ends_space_app (a b : string) :
  ends_space (a +:+ b) = if Text.is_empty b then ends_space a else ends_space b.
Proof.
  induction a as [|c a IH]; simpl.
  - by destruct b.
  - destruct a as [|d a]; simpl in *.
    + by destruct b.
    + rewrite IH. by destruct b.
Qed.

Lemma gapless_app (a b : string) :
  gapless a = true → gapless b = true →
  ends_space a && starts_space b = false →
  gapless (a +:+ b) = true.
Proof.
  induction a as [|c a IH]; [done|].
  destruct a as [|d a].
  - cbn [String.append ends_space]. intros _ Hb Hedge.
    destruct b as [|e b]; [done|].
    cbn [starts_space] in Hedge.
    change (gapless (String c EmptyString +:+ String e b))
      with (negb (Text.isspace c && Text.isspace e) && gapless (String e b)).
    by rewrite Hedge, Hb.
  - cbn [gapless ends_space]. intros [Hcd Ha]%andb_true_iff Hb Hedge.
    change (gapless (String c (String d a) +:+ b))
      with (negb (Text.isspace c && Text.isspace d) && gapless (String d a +:+ b)).
    rewrite Hcd. by apply IH.
Qed.

Lemma is_empty_app (a b : string) :
  Text.is_empty (a +:+ b) = Text.is_empty a && Text.is_empty b.
Proof. by destruct a. Qed.

Lemma plain_parts (r : string) :
  plain r = true →
  Text.is_empty r = false
  ∧ Text.all_chars (λ c, negb (delimiter_char c)) r = true
  ∧ gapless r = true ∧ starts_space r = false ∧ ends_space r = false.
Proof.
  unfold plain. rewrite !andb_true_iff, !negb_true_iff. tauto.
Qed.

(** The sample text of plain records is plain (or empty). *)
Lemma lines_text_plain (l : list string) :
  Forall (λ r, plain r = true) l →
  Text.all_chars (λ c, negb (delimiter_char c)) (Text.lines_text l) = true
  ∧ gapless (Text.lines_text l) = true
  ∧ starts_space (Text.lines_text l) = false
  ∧ ends_space (Text.lines_text l) = false
  ∧ (l ≠ [] → Text.is_empty (Text.lines_text l) = false).
Proof.
  unfold Text.lines_text, Text.join.
  induction 1 as [|r l Hr Hl IH]; [done|].
  apply plain_parts in Hr as (Hne & Hchars & Hgap & Hstart & Hend).
  destruct l as [|r' l']; [by cbn [String.concat]|].
  destruct IH as (IHchars & IHgap & IHstart & IHend & IHne).
  specialize (IHne ltac:(done)).
  set (rest := String.concat (String Text.newline EmptyString) (r' :: l')) in *.
  change (String.concat (String Text.newline EmptyString) (r :: r' :: l'))
    with (r +:+ String Text.newline rest).
  assert (gapless (String Text.newline rest) = true) as Hnl.
  { cbn [gapless]. destruct rest as [|e rest']; [done|].
    simpl in IHstart. rewrite IHstart, andb_false_r. exact IHgap. }
  split; [rewrite all_chars_app, Hchars; cbn [Text.all_chars]; by rewrite IHchars|].
  split; [apply gapless_app; [done|done|by rewrite Hend]|].
  split; [by rewrite starts_space_app, Hne|].
  split; [|intros _; by rewrite is_empty_app, Hne].
  rewrite ends_space_app. cbn [Text.is_empty].
  destruct rest as [|e rest']; [done|]. exact IHend.
Qed.

Lemma contains_char_none (c : ascii) (s : string) :
  Text.all_chars (λ d, negb (Ascii.eqb d c)) s = true →
  Text.contains (String c EmptyString) s = false.
Proof.
  induction s as [|d s IH]; [done|].
  cbn [Text.all_chars Text.contains String.prefix].
  intros [Hd Hs]%andb_true_iff. rewrite (IH Hs), orb_false_r.
  destruct (ascii_dec c d) as [->|]; [|done].
  by rewrite Ascii.eqb_refl in Hd.
Qed.

Lemma all_chars_impl (p q : ascii → bool) (s : string) :
  (∀ c, p c = true → q c = true) →
  Text.all_chars p s = true → Text.all_chars q s = true.
Proof.
  intros Hpq. induction s as [|c s IH]; [done|]. simpl.
  intros [Hc Hs]%andb_true_iff. by rewrite (Hpq _ Hc), IH.
Qed.

Lemma gapless_no_wide_gap (s : string) :
  gapless s = true → ∀ pos, Re.search_from WIDE_GAP pos s = None.
Proof.
  induction s as [|c s IH]; intros Hs pos; [done|].
  assert (gapless s = true) as Hs'.
  { destruct s; [done|]. simpl in Hs. by apply andb_true_iff in Hs as [_ ?]. }
  cbn [Re.search_from]. rewrite (IH Hs').
  assert (Re.match_at WIDE_GAP pos (String c s) = None) as ->; [|done].
  unfold Re.match_at, WIDE_GAP. cbn [Re.run Re.rep Re.may_take].
  rewrite andb_true_r. destruct (Text.isspace c) eqn:Ec; [|done].
  destruct s as [|d s]; [done|]. cbn [Re.rep Re.may_take].
  simpl in Hs. apply andb_true_iff in Hs as [Hd _]. rewrite Ec in Hd.
  simpl in Hd. apply negb_true_iff in Hd. by rewrite Hd.
Qed.

Lemma plain_sample_free_form (l : list string) :
  Forall (λ r, plain r = true) l → is_tabular (Text.lines_text l) = false.
Proof.
  intros Hl. destruct (lines_text_plain l Hl) as (Hchars & Hgap & _).
  unfold is_tabular. cbn [existsb].
  assert (∀ c, delimiter_char c = true →
               Text.contains (String c EmptyString) (Text.lines_text l) = false) as Hnone.
  { intros c Hc. apply contains_char_none.
    refine (all_chars_impl _ _ _ _ Hchars). intros d Hd.
    destruct (Ascii.eqb d c) eqn:E; [|done].
    apply Ascii.eqb_eq in E as ->. by rewrite Hc in Hd. }
  rewrite (Hnone ","%char), (Hnone Text.tab), (Hnone ";"%char) by done.
  unfold Re.found, Re.search. by rewrite gapless_no_wide_gap.
Qed.

Lemma elem_of_stride {A} (step : nat) (l : list A) (x : A) :
  ∀ wait, x ∈ stride step wait l → x ∈ l.
Proof.
  induction l as [|y l IH]; intros wait; [by destruct wait|].
  destruct wait as [|w]; simpl.
  - intros [->|Hx]%elem_of_cons; [apply list_elem_of_here|].
    apply list_elem_of_further. by eapply IH.
  - intros Hx. apply list_elem_of_further. by eapply IH.
Qed.

(** Every partition of plain records is classified free-form, whatever the
    number of workers. *)
Lemma plain_records_free_form (size : nat) (logs : list string) :
  Forall (λ r, plain r = true) logs → all_free_form size logs.
Proof.
  intros Hlogs chunk Hchunk. unfold partition in Hchunk.
  apply elem_of_map in Hchunk as (i & -> & _).
  apply plain_sample_free_form, Forall_take.
  apply Forall_forall. intros x Hx. apply elem_of_stride in Hx.
  rewrite Forall_forall in Hlogs. by apply Hlogs.
Qed.

(** X5. For records that are non-empty, hold no comma, tab or semicolon, no
    two whitespace characters in a row and no whitespace at either end, the
    result does not depend on the number of workers. *)
Corollary plain_records_runs_agree
    (sniff : string → option string) (read_csv : string → string → option DataFrame)
    (logs : list string) (W1 W2 : nat) :
  (1 ≤ W1)%nat → (1 ≤ W2)%nat →
  Forall (λ r, plain r = true) logs →
  run sniff read_csv W1 logs = run sniff read_csv W2 logs.
Proof.
  intros H1 H2 Hplain. unfold run. destruct logs; [done|].
  by rewrite !pipeline_free_form by (done || by apply plain_records_free_form).
Qed.

Example plain_examples :
  map plain ["Accepted publickey for bob from 10.1.1.1 port 22"; "a,b"; "x  y"; " x"; ""]
  = [true; false; false; false; false].
Proof. vm_compute. reflexivity. Qed.

(** ** The tabular detector, row by row *)

(** C6. In a frame with an attack column [a], for a row that is not skipped:
    when the trimmed attack value is non-empty and, lower-cased, in the
    benign set, the row leaves the tally unchanged; when it is non-empty and
    outside the benign set, the row binds its source value to its former
    count (zero when absent) plus one and changes no other key; when it is
    empty the attack-column branch is not taken at all, and the row adds one
    in the same way exactly when the trailing-text test holds. *)
Theorem benign_attack_value_not_counted
    (df : DataFrame) (src_col a : string) (t : tally) (row : list string) :
  frame_ok df →
  truthy a = true →
  skipped (src_value df src_col row) = false →
  (Text.strip (row_get df row a) ≠ EmptyString →
   in_list (Text.lower (Text.strip (row_get df row a))) BENIGN = true →
   row_step df src_col (Some a) t row = t)
  ∧ (Text.strip (row_get df row a) ≠ EmptyString →
     in_list (Text.lower (Text.strip (row_get df row a))) BENIGN = false →
     row_step df src_col (Some a) t row !! src_value df src_col row
     = Some (default 0 (t !! src_value df src_col row) + 1)
     ∧ ∀ k, k ≠ src_value df src_col row →
            row_step df src_col (Some a) t row !! k = t !! k)
  ∧ (Text.strip (row_get df row a) = EmptyString →
     attack_usable df (Some a) row = false
     ∧ (tail_textual row = false → row_step df src_col (Some a) t row = t)
     ∧ (tail_textual row = true →
        row_step df src_col (Some a) t row !! src_value df src_col row
        = Some (default 0 (t !! src_value df src_col row) + 1)
        ∧ ∀ k, k ≠ src_value df src_col row →
               row_step df src_col (Some a) t row !! k = t !! k)).
Proof.
  intros _ Ha Hsrc.
  assert (incr t (src_value df src_col row) !! src_value df src_col row
          = Some (default 0 (t !! src_value df src_col row) + 1)
          ∧ ∀ k, k ≠ src_value df src_col row →
                 incr t (src_value df src_col row) !! k = t !! k) as Hincr.
  { split; [by rewrite lookup_incr, decide_True|].
    intros k Hk. by rewrite lookup_incr, decide_False. }
  unfold row_step. rewrite Hsrc.
  unfold attack_usable, attack_value. rewrite Ha.
  destruct (Text.strip (row_get df row a)) as [|c v] eqn:Ev; simpl.
  - split; [done|]. split; [done|]. intros _. split; [done|].
    split; intros ->; done.
  - split; [by intros _ ->|]. split; [by intros _ ->|done].
Qed.

(** ** The frequency fallback *)

Lemma lookup_freq_fold (values l : list string) (t : tally) v :
  NoDup l →
  foldl (λ (t : tally) ip,
           let cnt := count_occ String.string_dec values ip in
           if Re.matches IP_REGEX ip && (1 <? cnt)%nat
           then <[ip := Z.of_nat cnt]> t else t) t l !! v
  = if decide (v ∈ l) then
      if Re.matches IP_REGEX v && (1 <? occurrences v values)%nat
      then Some (Z.of_nat (occurrences v values)) else t !! v
    else t !! v.
Proof.
  intros Hl. revert t. induction Hl as [|x l Hx Hl IH]; intros t; cbn [foldl].
  - by rewrite decide_False by apply not_elem_of_nil.
  - rewrite IH. clear IH. fold (occurrences x values).
    destruct (decide (v = x)) as [->|Hne].
    + rewrite (decide_False (P := x ∈ l)) by done.
      rewrite decide_True by apply list_elem_of_here.
      destruct (Re.matches IP_REGEX x && _); [by rewrite lookup_insert_eq|done].
    + assert (∀ t' : tally,
                (if Re.matches IP_REGEX x && (1 <? occurrences x values)%nat
                 then <[x := Z.of_nat (occurrences x values)]> t' else t') !! v = t' !! v)
        as Hskip.
      { intros t'. destruct (_ && _); [by rewrite lookup_insert_ne|done]. }
      rewrite Hskip.
      destruct (decide (v ∈ l)).
      * by rewrite decide_True by by apply list_elem_of_further.
      * rewrite decide_False; [done|]. by intros [?|?]%elem_of_cons.
Qed.

Lemma lookup_freq_fallback (df : DataFrame) (src_col : string) v :
  freq_fallback df src_col ∅ !! v
  = if Re.matches IP_REGEX v && (1 <? occurrences v (column df src_col))%nat
    then Some (Z.of_nat (occurrences v (column df src_col))) else None.
Proof.
  unfold freq_fallback. rewrite lookup_freq_fold by apply NoDup_remove_dups.
  rewrite lookup_empty. case_decide as Hin; [done|].
  destruct (_ && _) eqn:E; [|done].
  apply andb_true_iff in E as [_ E]. apply Nat.ltb_lt in E.
  exfalso. apply Hin. rewrite elem_of_remove_dups. apply occurrences_pos. lia.
Qed.

(** C8. When the row scan of a frame leaves the tally empty and the source
    column has a non-empty label, the detector's tally binds exactly the
    values of that column that match the IP pattern at their start and occur
    more than once, each to its number of occurrences; a value occurring
    once is absent. On the frame of scenario E the tally is
    ["5.5.5.5" -> 3]. *)
Theorem frequency_fallback_counts :
  (∀ (parsed : DataFrame) (src_col : string),
     let df := set_columns (normalize_columns (columns parsed)) parsed in
     frame_ok df →
     find_src_col df = Some src_col →
     truthy src_col = true →
     foldl (row_step df src_col (find_attack_col df)) ∅ (row_text df) = ∅ →
     ∃ t : tally,
       tabular_scan parsed = Some t
       ∧ ∀ v, t !! v
              = if Re.matches IP_REGEX v && (1 <? occurrences v (column df src_col))%nat
                then Some (Z.of_nat (occurrences v (column df src_col))) else None)
  ∧ tabular_scan scenario_E = Some {[ "5.5.5.5" := 3 ]}.
Proof.
  split; [|vm_compute; reflexivity].
  intros parsed src_col df _ Hsrc Htruthy Hrows.
  unfold tabular_scan. fold df. rewrite Hsrc, Hrows, Htruthy.
  rewrite bool_decide_eq_true_2 by done. simpl.
  eexists. split; [done|]. apply lookup_freq_fallback.
Qed.

Lemma frequency_fallback_counts_witness :
  ∃ t : tally,
    tabular_scan scenario_E = Some t
    ∧ ∀ v, t !! v
           = if Re.matches IP_REGEX v
                && (1 <? occurrences v
                           (column (set_columns (normalize_columns (columns scenario_E))
                                      scenario_E) "ip"))%nat
             then Some (Z.of_nat (occurrences v
                           (column (set_columns (normalize_columns (columns scenario_E))
                                      scenario_E) "ip")))
             else None.
Proof.
  apply (proj1 frequency_fallback_counts scenario_E "ip").
  - split; [|vm_compute; reflexivity].
    apply (bool_decide_unpack _). vm_compute. reflexivity.
  - vm_compute; reflexivity.
  - reflexivity.
  - vm_compute; reflexivity.
Defined.

(** ** Column inference *)

Lemma find_first (p : string → bool) (l : list string) :
  match find p l with
  | Some c => first_with (λ x, p x = true) l c
  | None => ∀ x, x ∈ l → p x = false
  end.
Proof.
  induction l as [|x l IH]; simpl.
  - intros x Hx. by apply not_elem_of_nil in Hx.
  - destruct (p x) eqn:Ex.
    + exists 0%nat. split; [done|]. split; [done|]. intros j c' Hj. lia.
    + destruct (find p l) as [c|].
      * destruct IH as (i & Hi & Hc & Hbefore). exists (S i).
        split; [done|]. split; [done|].
        intros [|j] c' Hj Hc'; simpl in Hc'.
        -- injection Hc' as <-. congruence.
        -- apply (Hbefore j); [lia|done].
      * intros y [->|Hy]%elem_of_cons; [done|by apply IH].
Qed.

Lemma index_of_cons_ne (x y : string) (l : list string) :
  y ≠ x → index_of x (y :: l) = S <$> index_of x l.
Proof.
  intros Hne. unfold index_of. cbn [list_find]. rewrite decide_False by done.
  by destruct (list_find _ l) as [[i z]|].
Qed.

Lemma index_of_here (x : string) (l : list string) : index_of x (x :: l) = Some 0%nat.
Proof. unfold index_of. cbn [list_find]. by rewrite decide_True. Qed.

(** The name-based loop returns the first label whose lower-cased form
    contains a key. *)
Lemma find_by_name_first (keys : list string) (df : DataFrame) :
  match find_by_name keys df with
  | Some c => first_with (λ x, any_key keys (Text.lower x) = true) (columns df) c
  | None => ∀ x, x ∈ columns df → any_key keys (Text.lower x) = false
  end.
Proof.
  unfold find_by_name. generalize (columns df) as l.
  induction l as [|x l IH]; simpl.
  - intros x Hx. by apply not_elem_of_nil in Hx.
  - destruct (any_key keys (Text.lower x)) eqn:Ex.
    + rewrite index_of_here. simpl.
      exists 0%nat. split; [done|]. split; [done|]. intros j c' Hj. lia.
    + destruct (find (any_key keys) (map Text.lower l)) as [name|] eqn:Ef.
      * assert (Text.lower x ≠ name) as Hne.
        { intros <-. apply find_some in Ef as [_ Ef]. congruence. }
        rewrite index_of_cons_ne by done.
        assert ((∀ y, y ∈ l → any_key keys (Text.lower y) = false) →
               ∀ y, y ∈ x :: l → any_key keys (Text.lower y) = false) as Hnone.
        { intros Hl y [->|Hy]%elem_of_cons; [done|by apply Hl]. }
        destruct (index_of name (map Text.lower l)) as [i|]; simpl in *; [|by apply Hnone].
        destruct (l !! i) as [c|]; [|by apply Hnone].
        destruct IH as (i' & Hi & Hc & Hbefore). exists (S i').
        split; [done|]. split; [done|].
        intros [|j] c' Hj Hc'; simpl in Hc'.
        -- injection Hc' as <-. congruence.
        -- apply (Hbefore j); [lia|done].
      * intros y [->|Hy]%elem_of_cons; [done|by apply IH].
Qed.

(** C9, as stated, fails: with twenty sampled values the threshold is two;
    the second column has one value matching the pattern but two matches in
    it, so the code selects it where the stated rule falls back to the first
    column. *)
Lemma occurrences_not_values :
  find_src_col two_in_one = Some "b"
  ∧ infer_source_column_as_stated two_in_one = Some "a"
  ∧ find_src_col two_in_one ≠ infer_source_column_as_stated two_in_one.
Proof.
  assert (find_src_col two_in_one = Some "b") as -> by (vm_compute; reflexivity).
  assert (infer_source_column_as_stated two_in_one = Some "a") as ->
    by (vm_compute; reflexivity).
  done.
Qed.

(** C9, amended. On a frame with at least one column [find_src_col] returns
    one of its labels: the first whose lower-cased name contains one of the
    keys; failing that, the first for which the sample of up to 200 values
    holds at least [max(1, min(10, sampleSize / 10))] matches of the IP
    pattern in total, a value counting once per non-overlapping match;
    failing that, the first label. *)
Theorem find_src_col_first_match (df : DataFrame) :
  frame_ok df →
  columns df ≠ [] →
  ∃ c, find_src_col df = Some c
       ∧ c ∈ columns df
       ∧ (first_with (λ x, any_key SRC_KEYS (Text.lower x) = true) (columns df) c
          ∨ ((∀ x, x ∈ columns df → any_key SRC_KEYS (Text.lower x) = false)
             ∧ first_with (λ x, many_ips df x = true) (columns df) c)
          ∨ ((∀ x, x ∈ columns df →
                any_key SRC_KEYS (Text.lower x) = false ∧ many_ips df x = false)
             ∧ head (columns df) = Some c))
       ∧ (∀ col, many_ips df col = true
                 ↔ (Nat.max 1 (Nat.min 10 (length (take 200 (column df col)) / 10))
                    ≤ sum_list (map (λ v, length (Re.findall IP_REGEX v))
                                  (take 200 (column df col))))%nat).
Proof.
  intros _ Hcols. unfold find_src_col.
  assert (∀ P c, first_with P (columns df) c → c ∈ columns df) as Hin.
  { intros P c (i & Hi & _). by eapply list_elem_of_lookup_2. }
  assert (∀ col, many_ips df col = true
                 ↔ (Nat.max 1 (Nat.min 10 (length (take 200 (column df col)) / 10))
                    ≤ sum_list (map (λ v, length (Re.findall IP_REGEX v))
                                  (take 200 (column df col))))%nat) as Hmany.
  { intros col. unfold many_ips, ip_threshold, ip_count. apply Nat.leb_le. }
  pose proof (find_by_name_first SRC_KEYS df) as Hname.
  destruct (find_by_name SRC_KEYS df) as [c|].
  { exists c. split; [done|]. split; [by eapply Hin|]. split; [by left|done]. }
  pose proof (find_first (many_ips df) (columns df)) as Hcontent.
  destruct (find (many_ips df) (columns df)) as [c|].
  { exists c. split; [done|]. split; [by eapply Hin|].
    split; [right; left; by split|done]. }
  destruct (columns df) as [|c l] eqn:E; [done|].
  exists c. split; [done|]. split; [apply list_elem_of_here|].
  split; [|done]. right; right. split; [|done].
  intros x Hx. split; [by apply Hname|by apply Hcontent].
Qed.

Lemma find_src_col_first_match_witness :
  ∃ c, find_src_col two_in_one = Some c
       ∧ c ∈ columns two_in_one
       ∧ (first_with (λ x, any_key SRC_KEYS (Text.lower x) = true) (columns two_in_one) c
          ∨ ((∀ x, x ∈ columns two_in_one → any_key SRC_KEYS (Text.lower x) = false)
             ∧ first_with (λ x, many_ips two_in_one x = true) (columns two_in_one) c)
          ∨ ((∀ x, x ∈ columns two_in_one →
                any_key SRC_KEYS (Text.lower x) = false ∧ many_ips two_in_one x = false)
             ∧ head (columns two_in_one) = Some c))
       ∧ (∀ col, many_ips two_in_one col = true
                 ↔ (Nat.max 1 (Nat.min 10 (length (take 200 (column two_in_one col)) / 10))
                    ≤ sum_list (map (λ v, length (Re.findall IP_REGEX v))
                                  (take 200 (column two_in_one col))))%nat).
Proof.
  apply (find_src_col_first_match two_in_one).
  - split; [|reflexivity]. apply (bool_decide_unpack _). vm_compute. reflexivity.
  - discriminate.
Defined.

(** ** The loader's failures *)

Lemma load_body_unsupported (fs : FileSystem) (file_path ext : string) :
  in_list ext SUPPORTED = false →
  load_body fs file_path ext = inl (ValueError ("Unsupported file type: " +:+ ext)).
Proof.
  unfold in_list, SUPPORTED, load_body. cbn [existsb].
  intros H. repeat (apply orb_false_iff in H as [? H]).
  by repeat match goal with E : String.eqb _ _ = false |- _ => rewrite E; clear E end.
Qed.

(** C4, on the code: an unsupported extension raises [ValueError] inside the
    [try], and the handler turns it into the same [RuntimeError] every load
    failure becomes. So every failure of [load_data] is a [RuntimeError],
    and the two kinds differ in the message text only. The exception does
    end the run before any partitioning. *)
Theorem load_failures_share_one_class
    (sniff : string → option string) (read_csv : string → string → option DataFrame)
    (fs : FileSystem) :
  load_data fs "upload.pdf"
  = inl (RuntimeError "Error loading file upload.pdf: Unsupported file type: .pdf")
  ∧ (∀ file_path,
       in_list (Text.lower (Path.splitext_ext file_path)) SUPPORTED = false →
       load_data fs file_path
       = inl (RuntimeError ("Error loading file " +:+ file_path +:+ ": "
                            +:+ "Unsupported file type: "
                            +:+ Text.lower (Path.splitext_ext file_path))))
  ∧ (∀ file_path e, load_data fs file_path = inl e → ∃ msg, e = RuntimeError msg)
  ∧ (∀ size file_path e,
       load_data fs file_path = inl e → main sniff read_csv fs size file_path = inl e).
Proof.
  assert (∀ file_path,
            in_list (Text.lower (Path.splitext_ext file_path)) SUPPORTED = false →
            load_data fs file_path
            = inl (RuntimeError ("Error loading file " +:+ file_path +:+ ": "
                                 +:+ "Unsupported file type: "
                                 +:+ Text.lower (Path.splitext_ext file_path)))) as Hunsup.
  { intros file_path H. unfold load_data. by rewrite load_body_unsupported. }
  split; [by rewrite Hunsup|]. split; [done|].
  split.
  { intros file_path e. unfold load_data. destruct (load_body _ _ _); [|done].
    intros [= <-]. by eexists. }
  intros size file_path e H. unfold main. by rewrite H.
Qed.

(** ** Instances *)

Lemma partition_round_robin_witness :
  length (partition 3 ["r0"; "r1"; "r2"; "r3"]) = 3%nat
  ∧ (∀ p j, (p < 3)%nat →
       partition 3 ["r0"; "r1"; "r2"; "r3"] !! p ≫= (λ chunk, chunk !! j)
       = ["r0"; "r1"; "r2"; "r3"] !! (p + j * 3)%nat)
  ∧ (∀ i x, ["r0"; "r1"; "r2"; "r3"] !! i = Some x →
       ∃ chunk, partition 3 ["r0"; "r1"; "r2"; "r3"] !! (i mod 3)%nat = Some chunk
                ∧ chunk !! (i / 3)%nat = Some x)
  ∧ (∀ p q ip iq i,
       partition 3 (seq 0 (length ["r0"; "r1"; "r2"; "r3"])) !! p = Some ip →
       partition 3 (seq 0 (length ["r0"; "r1"; "r2"; "r3"])) !! q = Some iq →
       i ∈ ip → i ∈ iq → p = q)
  ∧ partition 3 ["r0"; "r1"; "r2"; "r3"]
    = map (map (λ i, nth i ["r0"; "r1"; "r2"; "r3"] EmptyString))
        (partition 3 (seq 0 (length ["r0"; "r1"; "r2"; "r3"])))
  ∧ concat (partition 3 ["r0"; "r1"; "r2"; "r3"]) ≡ₚ ["r0"; "r1"; "r2"; "r3"].
Proof.
  apply (partition_round_robin 3 ["r0"; "r1"; "r2"; "r3"]). lia.
Defined.

Lemma all_free_form_check (size : nat) (logs : list string) :
  forallb (λ c, negb (is_tabular (chunk_sample c))) (partition size logs) = true →
  all_free_form size logs.
Proof.
  intros H chunk Hc. rewrite forallb_forall in H.
  apply list_elem_of_In, H, negb_true_iff in Hc. exact Hc.
Qed.

Lemma free_form_runs_agree_witness :
  run (λ _, None) (λ _ _, None) 1 ["from 1.1.1.1"; "idle"; "seen 1.1.1.1"]
  = run (λ _, None) (λ _ _, None) 2 ["from 1.1.1.1"; "idle"; "seen 1.1.1.1"]
  ∧ pipeline (λ _, None) (λ _ _, None) 1 ["from 1.1.1.1"; "idle"; "seen 1.1.1.1"]
    = aggregate [free_form ["from 1.1.1.1"; "idle"; "seen 1.1.1.1"]].
Proof.
  apply (free_form_runs_agree (λ _, None) (λ _ _, None)
           ["from 1.1.1.1"; "idle"; "seen 1.1.1.1"] 1 2).
  - lia.
  - lia.
  - apply all_free_form_check. vm_compute. reflexivity.
  - apply all_free_form_check. vm_compute. reflexivity.
Defined.

Example scenario_C_tally : tabular_scan scenario_C = Some {[ "9.9.9.9" := 1 ]}.
Proof. vm_compute. reflexivity. Qed.

Lemma benign_attack_value_not_counted_witness :
  row_step scenario_C "src_ip" (Some "label") {[ "9.9.9.9" := 4 ]} ["9.9.9.9"; "benign"]
  = {[ "9.9.9.9" := 4 ]}
  ∧ row_step scenario_C "src_ip" (Some "label") {[ "9.9.9.9" := 4 ]} ["9.9.9.9"; "exploit"]
      !! src_value scenario_C "src_ip" ["9.9.9.9"; "exploit"]
    = Some (default 0 (({[ "9.9.9.9" := 4 ]} : tally)
                         !! src_value scenario_C "src_ip" ["9.9.9.9"; "exploit"]) + 1).
Proof.
  assert (frame_ok scenario_C) as Hok.
  { split; [|reflexivity]. apply (bool_decide_unpack _). vm_compute. reflexivity. }
  split.
  - apply (proj1 (benign_attack_value_not_counted scenario_C "src_ip" "label"
                    {[ "9.9.9.9" := 4 ]} ["9.9.9.9"; "benign"] Hok eq_refl eq_refl)).
    + vm_compute. discriminate.
    + vm_compute. reflexivity.
  - apply (proj1 (proj2 (benign_attack_value_not_counted scenario_C "src_ip" "label"
                           {[ "9.9.9.9" := 4 ]} ["9.9.9.9"; "exploit"] Hok eq_refl eq_refl))).
    + vm_compute. discriminate.
    + vm_compute. reflexivity.
Defined.

Example exploit_row_adds_one :
  row_step scenario_C "src_ip" (Some "label") {[ "9.9.9.9" := 4 ]} ["9.9.9.9"; "exploit"]
  = {[ "9.9.9.9" := 5 ]}.
Proof. vm_compute. reflexivity. Qed.

Lemma aggregate_sums_counts_witness :
  aggregate [{[ "1.1.1.1" := 1 ]}; {[ "1.1.1.1" := 2; "2.2.2.2" := 5 ]}]
  = JInt <$> merge_all [{[ "1.1.1.1" := 1 ]}; {[ "1.1.1.1" := 2; "2.2.2.2" := 5 ]}]
  ∧ aggregate [{[ "1.1.1.1" := 2; "2.2.2.2" := 5 ]}; {[ "1.1.1.1" := 1 ]}]
    = aggregate [{[ "1.1.1.1" := 1 ]}; {[ "1.1.1.1" := 2; "2.2.2.2" := 5 ]}]
  ∧ merge_all [{[ "1.1.1.1" := 1 ]}; {[ "1.1.1.1" := 2; "2.2.2.2" := 5 ]}] !! "1.1.1.1"
    = Some 3.
Proof.
  destruct (aggregate_sums_counts
              [{[ "1.1.1.1" := 1 ]}; {[ "1.1.1.1" := 2; "2.2.2.2" := 5 ]}])
    as (Hsum & _ & Hmap & Hperm & _).
  split; [|split].
  - apply Hmap. intros E.
    apply (f_equal (λ t : tally, t !! "1.1.1.1")) in E. vm_compute in E. discriminate.
  - apply Hperm. apply perm_swap.
  - rewrite Hsum. vm_compute. reflexivity.
Defined.

Lemma free_form_line_counts_witness :
  free_form_line ∅
    "Jan 1 00:00:00 host sshd: Failed password for root from 10.0.0.5 port 22"
    !! "10.0.0.5"
  = if decide ("10.0.0.5" = Re.group1 (Re.MatchObj 26 38 ["10.0.0.5"]))
    then Some (get "10.0.0.5" ∅ + 1) else (∅ : tally) !! "10.0.0.5".
Proof.
  apply (proj1 (free_form_line_counts (λ _, None) (λ _ _, None)) ∅
           "Jan 1 00:00:00 host sshd: Failed password for root from 10.0.0.5 port 22"
           (Re.MatchObj 26 38 ["10.0.0.5"])).
  vm_compute. reflexivity.
Defined.

Lemma counts_strictly_positive_witness : 0 < 1.
Proof.
  apply (proj1 (counts_strictly_positive (λ _, None) (λ _ _, None))
           ["seen 1.1.1.1 and 2.2.2.2"] "2.2.2.2" 1).
  vm_compute. reflexivity.
Defined.

(** * Further properties of the code *)

(** ** Matches of the patterns *)

Lemma take_0 s : Text.take 0 s = EmptyString.
Proof. by destruct s. Qed.

Lemma take_S c s n : Text.take (S n) (String c s) = String c (Text.take n s).
Proof. reflexivity. Qed.

Lemma take_add (m1 m2 : nat) (s : string) :
  (m1 ≤ String.length s)%nat →
  Text.take (m1 + m2) s = Text.take m1 s +:+ Text.take m2 (drop_chars m1 s).
Proof.
  revert s. induction m1 as [|m1 IH]; intros s Hm.
  - by rewrite take_0.
  - destruct s as [|c s]; [simpl in Hm; lia|].
    simpl in Hm. cbn [Nat.add drop_chars]. rewrite !take_S, IH by lia. done.
Qed.

Lemma drop_chars_add (m1 m2 : nat) (s : string) :
  drop_chars (m1 + m2) s = drop_chars m2 (drop_chars m1 s).
Proof.
  revert s. induction m1 as [|m1 IH]; intros s; [done|].
  destruct s as [|c s]; simpl; [by destruct m2|]. apply IH.
Qed.

Lemma length_drop_chars (m : nat) (s : string) :
  String.length (drop_chars m s) = (String.length s - m)%nat.
Proof.
  revert s. induction m as [|m IH]; intros s; simpl; [lia|].
  destruct s as [|c s]; simpl; [done|]. apply IH.
Qed.

Lemma length_take (m : nat) (s : string) :
  (m ≤ String.length s)%nat → String.length (Text.take m s) = m.
Proof.
  revert s. induction m as [|m IH]; intros s Hm.
  - by rewrite take_0.
  - destruct s as [|c s]; [simpl in Hm; lia|].
    rewrite take_S. simpl in *. rewrite IH; lia.
Qed.

(** What a successful greedy repetition did: it consumed [m] characters of
    the class, at least [lo] counting the [n] taken before, and handed the
    rest to the continuation. *)
Lemma rep_inv {R} (p : ascii → bool) (lo : nat) (hi : option nat) (s : string) :
  ∀ (n pos : nat) (caps : list string) (k : @Re.kont R) (x : R),
    Re.rep p lo hi n pos caps s k = Some x →
    ∃ m, k (pos + m)%nat caps (drop_chars m s) = Some x
         ∧ (lo ≤ n + m)%nat ∧ (m ≤ String.length s)%nat
         ∧ Text.all_chars p (Text.take m s) = true.
Proof.
  induction s as [|c s IH]; intros n pos caps k x H.
  - cbn [Re.rep] in H. destruct (lo <=? n)%nat eqn:E; [|done].
    apply Nat.leb_le in E. exists 0%nat. rewrite Nat.add_0_r. simpl. auto with lia.
  - cbn [Re.rep] in H.
    assert ((if (lo <=? n)%nat then k pos caps (String c s) else None) = Some x →
            ∃ m, k (pos + m)%nat caps (drop_chars m (String c s)) = Some x
                 ∧ (lo ≤ n + m)%nat ∧ (m ≤ String.length (String c s))%nat
                 ∧ Text.all_chars p (Text.take m (String c s)) = true) as Hstop.
    { intros Hs. destruct (lo <=? n)%nat eqn:E; [|done].
      apply Nat.leb_le in E. exists 0%nat. rewrite Nat.add_0_r.
      split; [done|]. split; [lia|]. split; [simpl; lia|done]. }
    destruct (p c && Re.may_take hi n) eqn:Epc; [|by apply Hstop].
    destruct (Re.rep p lo hi (S n) (S pos) caps s k) as [y|] eqn:Erec; [|by apply Hstop].
    injection H as ->. apply IH in Erec as (m & Hk & Hlo & Hlen & Hall).
    apply andb_true_iff in Epc as [Hc _].
    exists (S m). rewrite Nat.add_succ_r. cbn [drop_chars].
    split; [done|]. split; [lia|]. split; [simpl; lia|].
    rewrite take_S. cbn [Text.all_chars]. by rewrite Hc.
Qed.

(** The same for a pattern without capture groups: the captures are passed
    on unchanged. *)
Lemma run_inv {R} (r : Re.regex) :
  group_free r = true →
  ∀ (pos : nat) (caps : list string) (s : string) (k : @Re.kont R) (x : R),
    Re.run r pos caps s k = Some x →
    ∃ m, k (pos + m)%nat caps (drop_chars m s) = Some x
         ∧ (min_len r ≤ m)%nat ∧ (m ≤ String.length s)%nat
         ∧ Text.all_chars (consumes r) (Text.take m s) = true.
Proof.
  induction r as [|p|a IHa b IHb|p lo hi|a IHa|a IHa| |]; intros Hgf pos caps s k x H;
    cbn [Re.run] in H.
  - exists 0%nat. rewrite Nat.add_0_r, take_0. simpl. auto with lia.
  - destruct s as [|c s]; [done|]. destruct (p c) eqn:Ec; [|done].
    exists 1%nat. rewrite Nat.add_1_r. cbn [drop_chars min_len consumes].
    split; [done|]. split; [lia|]. split; [simpl; lia|].
    rewrite take_S, take_0. cbn [Text.all_chars]. by rewrite Ec.
  - cbn [group_free] in Hgf. apply andb_true_iff in Hgf as [Ha Hb].
    apply (IHa Ha) in H as (m1 & H & Hmin1 & Hlen1 & Hall1).
    apply (IHb Hb) in H as (m2 & H & Hmin2 & Hlen2 & Hall2).
    rewrite length_drop_chars in Hlen2.
    exists (m1 + m2)%nat. rewrite Nat.add_assoc, drop_chars_add.
    split; [done|]. cbn [min_len consumes]. split; [lia|]. split; [lia|].
    rewrite take_add, all_chars_app by done. apply andb_true_iff. split.
    + refine (all_chars_impl _ _ _ _ Hall1). by intros c ->.
    + refine (all_chars_impl _ _ _ _ Hall2). intros c ->. apply orb_true_r.
  - apply rep_inv in H as (m & H & Hlo & Hlen & Hall). exists m. auto.
  - cbn [group_free] in Hgf.
    destruct (Re.run a pos caps s k) as [y|] eqn:E.
    + injection H as ->. apply (IHa Hgf) in E as (m & ? & ? & ? & ?).
      exists m. cbn [min_len consumes]. auto with lia.
    + exists 0%nat. rewrite Nat.add_0_r, take_0. simpl. auto with lia.
  - done.
  - destruct (pos =? 0)%nat; [|done].
    exists 0%nat. rewrite Nat.add_0_r, take_0. simpl. auto with lia.
  - exists 0%nat. rewrite Nat.add_0_r, take_0. cbn [drop_chars min_len consumes].
    split; [|split; [lia|split; [lia|done]]].
    destruct s as [|c [|d s]]; [done| |done]. by destruct (Ascii.eqb c Text.newline).
Qed.

Lemma run_seq {R} (a b : Re.regex) pos caps s (k : @Re.kont R) :
  Re.run (Re.Seq a b) pos caps s k
  = Re.run a pos caps s (λ pos' caps' s', Re.run b pos' caps' s' k).
Proof. reflexivity. Qed.

Lemma group_free_lit (s : string) : group_free (Re.lit s) = true.
Proof. induction s as [|c s IH]; [done|]. simpl. exact IH. Qed.

Lemma consumes_ip (c : ascii) : consumes IP_REGEX c = true → ip_char c = true.
Proof.
  unfold IP_REGEX, ip_char. cbn [consumes Re.times Re.lit].
  rewrite (Ascii.eqb_sym "." c).
  destruct (Text.re_digit c), (Ascii.eqb c "."); done.
Qed.

(** A match of [IP_REGEX] covers at least seven characters, digits and
    dots only, and captures nothing. *)
Lemma run_ip_inv {R} pos caps s (k : @Re.kont R) x :
  Re.run IP_REGEX pos caps s k = Some x →
  ∃ m, k (pos + m)%nat caps (drop_chars m s) = Some x ∧ ip_like (Text.take m s).
Proof.
  intros H. apply run_inv in H as (m & Hk & Hmin & Hlen & Hall); [|reflexivity].
  exists m. split; [done|]. split.
  - rewrite length_take by done. exact Hmin.
  - refine (all_chars_impl _ _ _ consumes_ip Hall).
Qed.

Lemma match_at_ip_like pos s m :
  Re.match_at IP_REGEX pos s = Some m → ip_like (Text.take (Re.m_len m) s).
Proof.
  unfold Re.match_at. intros H. apply run_ip_inv in H as (n & [= <-] & Hn).
  cbn [Re.m_len]. by replace (pos + n - pos)%nat with n by lia.
Qed.

Lemma findall_ip_like (s : string) :
  ∀ skip pos x, x ∈ Re.findall_from IP_REGEX skip pos s → ip_like x.
Proof.
  induction s as [|c s IH]; intros skip pos x Hx; cbn [Re.findall_from] in Hx.
  - by apply not_elem_of_nil in Hx.
  - destruct skip as [|n]; [|by eapply IH].
    destruct (Re.match_at IP_REGEX pos (String c s)) as [[st [|len] gs]|] eqn:E;
      [by eapply IH| |by eapply IH].
    apply elem_of_cons in Hx as [->|Hx]; [|by eapply IH].
    apply (match_at_ip_like _ _ _ E).
Qed.

Lemma search_from_inv (r : Re.regex) (s : string) :
  ∀ pos m, Re.search_from r pos s = Some m →
           ∃ pos' s', Re.match_at r pos' s' = Some m.
Proof.
  induction s as [|c s IH]; intros pos m H; cbn [Re.search_from] in H.
  - destruct (Re.match_at r pos EmptyString) eqn:E; [|done].
    injection H as ->. eauto.
  - destruct (Re.match_at r pos (String c s)) eqn:E.
    + injection H as ->. eauto.
    + by eapply IH.
Qed.

(** The group captured by the failed-password pattern is such a match. *)
Lemma failed_group_ip_like (line : string) (m : Re.match_obj) :
  Re.search FAILED_PASSWORD line = Some m → ip_like (Re.group1 m).
Proof.
  intros H. apply search_from_inv in H as (pos & s & H).
  unfold Re.match_at, FAILED_PASSWORD in H. rewrite run_seq in H.
  apply run_inv in H as (m1 & H & _); [|apply group_free_lit].
  rewrite run_seq in H. apply run_inv in H as (m2 & H & _); [|reflexivity].
  rewrite run_seq in H. apply run_inv in H as (m3 & H & _); [|apply group_free_lit].
  cbn [Re.run] in H. apply run_ip_inv in H as (n & [= <-] & Hn).
  unfold Re.group1. cbn [Re.m_groups app hd].
  by replace (pos + m1 + m2 + m3 + n - (pos + m1 + m2 + m3))%nat with n by lia.
Qed.

Lemma hits_ip_like (line x : string) : x ∈ hits line → ip_like x.
Proof.
  unfold hits. destruct (Re.search FAILED_PASSWORD line) as [m|] eqn:E.
  - intros ->%list_elem_of_singleton. by eapply failed_group_ip_like.
  - apply findall_ip_like.
Qed.

Lemma elem_of_concat_map {A} (f : A → list string) (l : list A) (x : string) :
  x ∈ concat (map f l) → ∃ y, y ∈ l ∧ x ∈ f y.
Proof.
  induction l as [|y l IH]; simpl; [by intros ?%not_elem_of_nil|].
  intros [H|H]%elem_of_app.
  - exists y. split; [apply list_elem_of_here|done].
  - destruct (IH H) as (z & Hz & Hx). exists z. split; [by apply list_elem_of_further|done].
Qed.

Lemma counted_key (l : list string) (k : string) :
  is_Some (incr_all ∅ l !! k) → k ∈ l.
Proof.
  rewrite lookup_counted. unfold count_of. case_decide as E; [by intros [? ?]|].
  intros _. apply occurrences_pos. lia.
Qed.

(** X12. On a partition handled by the free-form branch or by the handler
    of a failed tabular attempt, every key of the tally has at least seven
    characters, all of them digits or dots; in particular no key is
    ["message"]. *)
Theorem free_form_keys_are_ip_like (sniff : string → option string)
    (read_csv : string → string → option DataFrame) (log_chunk : list string) (k : string) :
  is_tabular (chunk_sample log_chunk) = false
  ∨ tabular_attempt sniff read_csv log_chunk = None →
  is_Some (analyze_logs sniff read_csv log_chunk !! k) →
  ip_like k ∧ k ≠ "message".
Proof.
  intros Hpath Hk.
  assert (ip_like k) as Hip.
  { unfold analyze_logs in Hk.
    destruct (is_tabular (chunk_sample log_chunk)) eqn:Et.
    - destruct Hpath as [|Hraise]; [done|]. rewrite Hraise in Hk.
      rewrite regex_fallback_counts in Hk. apply counted_key in Hk.
      apply elem_of_concat_map in Hk as (line & _ & Hx).
      by eapply findall_ip_like.
    - rewrite free_form_counts in Hk. apply counted_key in Hk.
      apply elem_of_concat_map in Hk as (line & _ & Hx).
      by eapply hits_ip_like. }
  split; [done|]. intros ->. destruct Hip as [_ Hip]. vm_compute in Hip. done.
Qed.

(** ** What the front end shows *)

Lemma merged_message_None (ts : list tally) :
  merge_all ts !! "message" = None ↔ ∀ t, t ∈ ts → t !! "message" = None.
Proof.
  rewrite lookup_merge_all. unfold total, counts. split.
  - intros H t Ht. destruct (t !! "message") as [n|] eqn:E; [|done].
    assert (n ∈ omap (λ t : tally, t !! "message") ts) as Hn
      by (apply list_elem_of_omap; eauto).
    destruct (omap _ ts); [by apply not_elem_of_nil in Hn|done].
  - intros H. destruct (omap _ ts) as [|n l] eqn:E; [done|].
    assert (n ∈ omap (λ t : tally, t !! "message") ts) as Hn
      by (rewrite E; apply list_elem_of_here).
    apply list_elem_of_omap in Hn as (t & Ht & Hn). rewrite (H t Ht) in Hn. done.
Qed.

Lemma render_aggregate (ts : list tally) :
  (chart (render_results (aggregate ts)) = true
   ↔ merge_all ts ≠ ∅ ∧ ∀ t, t ∈ ts → t !! "message" = None)
  ∧ (chart (render_results (aggregate ts)) = true →
     shown (render_results (aggregate ts)) = JInt <$> merge_all ts)
  ∧ (chart (render_results (aggregate ts)) = false →
     shown (render_results (aggregate ts)) = NO_FINDINGS).
Proof.
  rewrite <- merged_message_None. unfold render_results.
  destruct (decide (merge_all ts = ∅)) as [He|Hne].
  - rewrite (aggregate_empty _ He).
    replace (bool_decide (is_Some (sentinel !! "message"))) with true
      by (symmetry; apply bool_decide_eq_true; by eexists).
    rewrite orb_true_r. simpl. split; [|done]. split; [done|]. by intros [? _].
  - rewrite (aggregate_nonempty _ Hne).
    assert (bool_decide (JInt <$> merge_all ts = ∅)
            || bool_decide (is_Some ((JInt <$> merge_all ts) !! "message"))
            = bool_decide (is_Some (merge_all ts !! "message"))) as ->.
    { rewrite bool_decide_eq_false_2 by (by intros ?%fmap_empty_inv).
      apply bool_decide_ext. rewrite lookup_fmap. apply fmap_is_Some. }
    destruct (merge_all ts !! "message") as [n|] eqn:E.
    + rewrite bool_decide_eq_true_2 by by eexists. simpl.
      split; [|done]. split; [done|]. by intros [_ ?].
    + rewrite bool_decide_eq_false_2 by by intros [? ?]. simpl. done.
Qed.

(** X13. The front end draws the chart and shows the merged counts exactly
    when the merge is not empty and no tally has the key ["message"];
    otherwise it shows its fixed no-findings message: a tally containing the
    key ["message"] hides every finding. *)
Theorem findings_shown_unless_message_key (ts : list tally) :
  (chart (render_results (aggregate ts)) = true
   ↔ merge_all ts ≠ ∅ ∧ ∀ t, t ∈ ts → t !! "message" = None)
  ∧ (chart (render_results (aggregate ts)) = true →
     shown (render_results (aggregate ts)) = JInt <$> merge_all ts)
  ∧ (chart (render_results (aggregate ts)) = false →
     shown (render_results (aggregate ts)) = NO_FINDINGS).
Proof. apply render_aggregate. Qed.

Lemma free_form_no_message (logs : list string) : free_form logs !! "message" = None.
Proof.
  destruct (free_form logs !! "message") as [n|] eqn:E; [|done]. exfalso.
  assert (is_Some (incr_all ∅ (all_hits logs) !! "message")) as Hk
    by (rewrite <- free_form_counts, E; by eexists).
  apply counted_key, elem_of_concat_map in Hk as (line & _ & Hx).
  apply hits_ip_like in Hx as [_ Hx]. vm_compute in Hx. done.
Qed.

(** X14. When every partition is classified free-form, the front end shows
    findings exactly when the free-form tally of the input is not empty, and
    then shows that tally. *)
Theorem free_form_findings_are_shown
    (sniff : string → option string) (read_csv : string → string → option DataFrame)
    (size : nat) (logs : list string) :
  (1 ≤ size)%nat → all_free_form size logs →
  (chart (render_results (pipeline sniff read_csv size logs)) = true
   ↔ free_form logs ≠ ∅)
  ∧ (free_form logs ≠ ∅ →
     shown (render_results (pipeline sniff read_csv size logs)) = JInt <$> free_form logs).
Proof.
  intros Hsize Hfree. rewrite pipeline_free_form by done.
  destruct (render_aggregate [free_form logs]) as (Hiff & Hshown & _).
  assert (merge_all [free_form logs] = free_form logs) as Em.
  { pose proof (merge_free_form [logs]) as E. cbn [map concat] in E.
    by rewrite app_nil_r in E. }
  rewrite Em in *. split.
  - rewrite Hiff. split; [by intros [? _]|]. intros Hne. split; [done|].
    intros t ->%list_elem_of_singleton. apply free_form_no_message.
  - intros Hne. apply Hshown, Hiff. split; [done|].
    intros t ->%list_elem_of_singleton. apply free_form_no_message.
Qed.

(** ** The loader on text files *)

Lemma is_empty_rstrip (p : ascii → bool) (s : string) :
  Text.is_empty (Text.rstrip_by p s) = Text.all_chars p s.
Proof.
  induction s as [|c s IH]; [done|]. cbn [Text.rstrip_by Text.all_chars].
  rewrite IH. destruct (Text.all_chars p s), (p c); done.
Qed.

Lemma all_chars_lstrip (p : ascii → bool) (s : string) :
  Text.all_chars p (Text.lstrip_by p s) = Text.all_chars p s.
Proof.
  induction s as [|c s IH]; [done|]. cbn [Text.lstrip_by].
  destruct (p c) eqn:E; [|done]. cbn [Text.all_chars]. by rewrite E, IH.
Qed.

(** A string is blank when all its characters are whitespace. *)
Lemma nonblank_spec (s : string) : nonblank s = negb (Text.all_chars Text.isspace s).
Proof.
  unfold nonblank, Text.strip. by rewrite is_empty_rstrip, all_chars_lstrip.
Qed.

Lemma all_chars_rstrip (p q : ascii → bool) (s : string) :
  (∀ c, p c = true → q c = true) →
  Text.all_chars q (Text.rstrip_by p s) = Text.all_chars q s.
Proof.
  intros Hpq. induction s as [|c s IH]; [done|]. cbn [Text.rstrip_by].
  destruct (Text.is_empty (Text.rstrip_by p s) && p c) eqn:E.
  - apply andb_true_iff in E as [Hr Hc]. cbn [Text.all_chars].
    rewrite <- IH, (Hpq _ Hc). by destruct (Text.rstrip_by p s).
  - cbn [Text.all_chars]. by rewrite IH.
Qed.

Lemma nonblank_rstrip_newlines (s : string) :
  nonblank (Text.rstrip_newlines s) = nonblank s.
Proof.
  rewrite !nonblank_spec. unfold Text.rstrip_newlines. f_equal.
  apply all_chars_rstrip. intros c Hc. apply Ascii.eqb_eq in Hc as <-. reflexivity.
Qed.

Lemma ends_with_rstrip (p : ascii → bool) (s : string) :
  ends_with p (Text.rstrip_by p s) = false.
Proof.
  induction s as [|c s IH]; [done|]. cbn [Text.rstrip_by].
  destruct (Text.rstrip_by p s) as [|d r] eqn:E; simpl.
  - by destruct (p c) eqn:Ec; simpl.
  - exact IH.
Qed.

Lemma load_body_text (fs : FileSystem) (file_path ext : string) :
  in_list ext TEXT_KINDS = true →
  load_body fs file_path ext = read_text_lines fs file_path.
Proof.
  unfold in_list, TEXT_KINDS. cbn [existsb]. rewrite orb_false_r.
  intros [H|[H|H]%orb_true_iff]%orb_true_iff; apply String.eqb_eq in H as ->; reflexivity.
Qed.

Lemma load_data_text (fs : FileSystem) (file_path : string) (ls : list string) :
  in_list (Text.lower (Path.splitext_ext file_path)) TEXT_KINDS = true →
  open_lines fs file_path = inr ls →
  load_data fs file_path
  = inr (map Text.rstrip_newlines (filter (λ l, nonblank l = true) ls)).
Proof.
  intros Hext Hopen. unfold load_data. rewrite load_body_text by done.
  unfold read_text_lines. by rewrite Hopen.
Qed.

(** X1. For a [.csv], [.log] or [.txt] path (in any letter case) that can
    be read, every record the loader returns is non-blank and does not end
    with a newline; no more records than lines are returned, and as many
    exactly when no line is blank. *)
Theorem text_records_are_nonblank (fs : FileSystem) (file_path : string)
    (ls logs : list string) :
  in_list (Text.lower (Path.splitext_ext file_path)) TEXT_KINDS = true →
  open_lines fs file_path = inr ls →
  load_data fs file_path = inr logs →
  Forall (λ r, nonblank r = true ∧ ends_with (Ascii.eqb Text.newline) r = false) logs
  ∧ (length logs ≤ length ls)%nat
  ∧ (length logs = length ls ↔ Forall (λ l, nonblank l = true) ls).
Proof.
  intros Hext Hopen Hload. rewrite (load_data_text _ _ _ Hext Hopen) in Hload.
  injection Hload as <-. split.
  - apply Forall_forall. intros r (l & -> & Hl)%elem_of_map.
    apply list_elem_of_filter in Hl as [Hl _].
    split; [by rewrite nonblank_rstrip_newlines|apply ends_with_rstrip].
  - rewrite length_map. split; [apply length_filter|].
    split.
    + intros Hlen. apply Forall_forall. intros l Hl.
      destruct (nonblank l) eqn:E; [done|]. exfalso.
      assert (length (filter (λ l, nonblank l = true) ls) < length ls)%nat; [|lia].
      apply (length_filter_lt _ _ l); [done|congruence].
    + intros Hall. f_equal. clear -Hall. induction Hall as [|l ls Hl _ IH]; [done|].
      rewrite filter_cons_True by done. by rewrite IH.
Qed.

Lemma text_records_are_nonblank_witness :
  Forall (λ r, nonblank r = true ∧ ends_with (Ascii.eqb Text.newline) r = false)
    ["sshd: x"; "last line"]
  ∧ (length ["sshd: x"; "last line"] ≤ length three_lines_content)%nat
  ∧ (length ["sshd: x"; "last line"] = length three_lines_content
     ↔ Forall (λ l, nonblank l = true) three_lines_content).
Proof.
  apply (text_records_are_nonblank three_lines "auth.LOG" three_lines_content
           ["sshd: x"; "last line"]); reflexivity.
Defined.

(** X2. For a readable text file and any number of processes, rank 0 returns
    from [main] before partitioning, and no result is written, exactly when
    every line of the file is blank; one non-blank line is enough for a
    result to be written. (The statement is about rank 0, which alone loads
    the file and writes; the other ranks are not modelled.) *)
Theorem blank_text_file_writes_nothing
    (sniff : string → option string) (read_csv : string → string → option DataFrame)
    (fs : FileSystem) (size : nat) (file_path : string) (ls : list string) :
  (1 ≤ size)%nat →
  in_list (Text.lower (Path.splitext_ext file_path)) TEXT_KINDS = true →
  open_lines fs file_path = inr ls →
  (main sniff read_csv fs size file_path = inr None
   ↔ Forall (λ l, nonblank l = false) ls)
  ∧ (∀ l, l ∈ ls → nonblank l = true →
       ∃ out, main sniff read_csv fs size file_path = inr (Some out)).
Proof.
  intros _ Hext Hopen. unfold main. rewrite (load_data_text _ _ _ Hext Hopen).
  assert (filter (λ l, nonblank l = true) ls = [] ↔ Forall (λ l, nonblank l = false) ls)
    as Hnil.
  { split.
    - intros Hf. apply Forall_forall. intros l Hl.
      destruct (nonblank l) eqn:E; [|done].
      destruct (filter_nil_not_elem_of (λ l, nonblank l = true) ls l Hf E Hl).
    - intros Hall. clear Hopen. induction Hall as [|l ls' Hl _ IH]; [done|].
      rewrite filter_cons_False by congruence. exact IH. }
  split.
  - rewrite <- Hnil. unfold run.
    destruct (filter _ ls) as [|l rest]; simpl; split; done.
  - intros l Hl Hnb. unfold run.
    destruct (filter (λ l, nonblank l = true) ls) as [|l' rest] eqn:E; simpl; [|eauto].
    destruct (filter_nil_not_elem_of (λ l, nonblank l = true) ls l E Hnb Hl).
Qed.

Lemma blank_text_file_writes_nothing_witness :
  (main (λ _, None) (λ _ _, None) blank_file 1 "empty.txt" = inr None
   ↔ Forall (λ l, nonblank l = false) blank_content)
  ∧ (∀ l, l ∈ blank_content → nonblank l = true →
       ∃ out, main (λ _, None) (λ _ _, None) blank_file 1 "empty.txt" = inr (Some out)).
Proof.
  apply (blank_text_file_writes_nothing (λ _, None) (λ _ _, None) blank_file 1
           "empty.txt" blank_content); [lia|reflexivity|reflexivity].
Defined.

Example blank_file_run :
  main (λ _, None) (λ _ _, None) blank_file 1 "empty.txt" = inr None
  ∧ ∃ out, main (λ _, None) (λ _ _, None) three_lines 1 "auth.LOG" = inr (Some out).
Proof. split; [vm_compute; reflexivity|]. eexists. vm_compute. reflexivity. Qed.

(** ** [find_attack_col] *)

Lemma elem_of_last_n {A} (n : nat) (l : list A) (x : A) : x ∈ last_n n l → x ∈ l.
Proof.
  unfold last_n. intros (i & Hi)%list_elem_of_lookup.
  rewrite lookup_drop in Hi. by eapply list_elem_of_lookup_2.
Qed.

Lemma last_n_all {A} (n : nat) (l : list A) : (length l ≤ n)%nat → last_n n l = l.
Proof. intros H. unfold last_n. by replace (length l - n)%nat with 0%nat by lia. Qed.

(** X7. On a frame with pairwise distinct labels, [find_attack_col] returns
    a label of the frame or [None]: the first label whose lower-cased name
    contains an attack key; failing that, among the last six labels, the
    rightmost whose sampled values are not all numeric; [None] only when no
    name matches and the last six columns (all of them in a frame of at most
    six) are numeric throughout the sample. *)
Theorem find_attack_col_rightmost_textual (df : DataFrame) :
  frame_ok df →
  match find_attack_col df with
  | Some c =>
      c ∈ columns df
      ∧ (first_with (λ x, any_key ATTACK_KEYS (Text.lower x) = true) (columns df) c
         ∨ ((∀ x, x ∈ columns df → any_key ATTACK_KEYS (Text.lower x) = false)
            ∧ first_with (λ x, textual df x = true) (rev (last_n 6 (columns df))) c))
  | None =>
      (∀ x, x ∈ columns df → any_key ATTACK_KEYS (Text.lower x) = false)
      ∧ (∀ x, x ∈ last_n 6 (columns df) → textual df x = false)
      ∧ ((length (columns df) ≤ 6)%nat → ∀ x, x ∈ columns df → textual df x = false)
  end.
Proof.
  intros _. unfold find_attack_col.
  pose proof (find_by_name_first ATTACK_KEYS df) as Hname.
  destruct (find_by_name ATTACK_KEYS df) as [c|].
  { split; [|by left]. destruct Hname as (i & Hi & _). by eapply list_elem_of_lookup_2. }
  pose proof (find_first (textual df) (rev (last_n 6 (columns df)))) as Htail.
  destruct (find (textual df) (rev (last_n 6 (columns df)))) as [c|].
  - split; [|by right]. destruct Htail as (i & Hi & _).
    apply list_elem_of_lookup_2, list_elem_of_In in Hi.
    apply (proj2 (in_rev _ c)), list_elem_of_In in Hi. by eapply elem_of_last_n.
  - assert (∀ x, x ∈ last_n 6 (columns df) → textual df x = false) as Hnone.
    { intros x Hx. apply Htail. apply list_elem_of_In, (proj1 (in_rev _ x)).
      by apply list_elem_of_In. }
    split; [done|]. split; [done|].
    intros Hlen x Hx. apply Hnone. by rewrite last_n_all.
Qed.

(** ** The header normalisation *)

Lemma map_fmap {A B} (f : A → B) (l : list A) : map f l = f <$> l.
Proof. induction l as [|x l IH]; [done|]. simpl. by rewrite IH. Qed.

Lemma forallb_map {A B} (p : B → bool) (f : A → B) (l : list A) :
  forallb p (map f l) = forallb (λ x, p (f x)) l.
Proof. induction l as [|x l IH]; [done|]. simpl. by rewrite IH. Qed.

Lemma synthetic_label_inj (i j : nat) : "col" +:+ pretty i = "col" +:+ pretty j → i = j.
Proof.
  intros H. cbn [String.append] in H. injection H as H.
  cbn [String.append] in H. by apply pretty_nat_inj in H.
Qed.

Lemma rstrip_idem (p : ascii → bool) (s : string) :
  Text.rstrip_by p (Text.rstrip_by p s) = Text.rstrip_by p s.
Proof.
  induction s as [|c s IH]; [done|]. cbn [Text.rstrip_by].
  destruct (Text.is_empty (Text.rstrip_by p s) && p c) eqn:E; [done|].
  cbn [Text.rstrip_by]. by rewrite IH, E.
Qed.

Lemma lstrip_rstrip_lstrip (p : ascii → bool) (s : string) :
  Text.lstrip_by p (Text.rstrip_by p (Text.lstrip_by p s))
  = Text.rstrip_by p (Text.lstrip_by p s).
Proof.
  induction s as [|c s IH]; [done|]. cbn [Text.lstrip_by].
  destruct (p c) eqn:E; [done|]. cbn [Text.rstrip_by].
  rewrite E, andb_false_r. cbn [Text.lstrip_by]. by rewrite E.
Qed.

Lemma strip_idem (s : string) : Text.strip (Text.strip s) = Text.strip s.
Proof. unfold Text.strip. by rewrite lstrip_rstrip_lstrip, rstrip_idem. Qed.

(** X8. The header normalisation keeps the number of labels. When every
    stripped label is a digit string the labels become [col0], [col1], ...,
    pairwise distinct; otherwise each label is stripped, and normalising
    again changes nothing. *)
Theorem normalize_columns_labels (labels : list string) :
  length (normalize_columns labels) = length labels
  ∧ (forallb (λ c, Text.isdigit (Text.strip c)) labels = true →
     (∀ i, (i < length labels)%nat →
        normalize_columns labels !! i = Some ("col" +:+ pretty i))
     ∧ NoDup (normalize_columns labels))
  ∧ (forallb (λ c, Text.isdigit (Text.strip c)) labels = false →
     normalize_columns labels = map Text.strip labels
     ∧ normalize_columns (normalize_columns labels) = normalize_columns labels).
Proof.
  assert (∀ l, forallb (λ c, Text.isdigit (Text.strip c)) (map Text.strip l)
               = forallb (λ c, Text.isdigit (Text.strip c)) l) as Hcond.
  { intros l. rewrite forallb_map. induction l as [|c l IH]; [done|].
    simpl. by rewrite strip_idem, IH. }
  assert (∀ l, normalize_columns l
               = if forallb (λ c, Text.isdigit (Text.strip c)) l
                 then map (λ i : nat, "col" +:+ pretty i) (seq 0 (length l))
                 else map Text.strip l) as Hnorm.
  { intros l. unfold normalize_columns. by rewrite Hcond, length_map. }
  rewrite !(Hnorm labels).
  destruct (forallb _ labels) eqn:E.
  - rewrite length_map, length_seq. split; [done|]. split; [|done].
    intros _. split.
    + intros i Hi. rewrite lookup_map, lookup_seq_lt by done. reflexivity.
    + rewrite map_fmap. apply NoDup_fmap_2_strong; [|apply NoDup_seq].
      intros i j _ _. apply synthetic_label_inj.
  - rewrite length_map. split; [done|]. split; [done|]. intros _. split; [done|].
    rewrite Hnorm, Hcond, E, map_map. apply map_ext. intros c. apply strip_idem.
Qed.

(** ** The row scan as counting *)

Lemma row_step_counted df src_col attack_col (t : tally) row :
  row_step df src_col attack_col t row
  = if row_counted df src_col attack_col row
    then incr t (src_value df src_col row) else t.
Proof.
  unfold row_step, row_counted.
  destruct (skipped _); [done|]. simpl.
  destruct (attack_usable _ _ _); [|done]. by destruct (negb _).
Qed.

Lemma row_scan_counts df src_col attack_col (rows : list (list string)) :
  ∀ t : tally,
    foldl (row_step df src_col attack_col) t rows
    = incr_all t (row_hits df src_col attack_col rows).
Proof.
  unfold row_hits. induction rows as [|row rows IH]; intros t; [done|].
  cbn [foldl]. rewrite IH, row_step_counted.
  destruct (row_counted df src_col attack_col row) eqn:E.
  - by rewrite filter_cons_True by done.
  - by rewrite filter_cons_False by congruence.
Qed.

(** X9. The row loop counts source values: after it, a key is bound to the
    number of counted rows that carry it as source value; every key is the
    source value of a counted row, so never empty and never [nan] in any
    letter case; no count exceeds the number of rows. *)
Theorem row_scan_tally (df : DataFrame) (src_col : string) (attack_col : option string)
    (rows : list (list string)) (k : string) :
  foldl (row_step df src_col attack_col) ∅ rows !! k
  = count_of k (row_hits df src_col attack_col rows)
  ∧ (is_Some (foldl (row_step df src_col attack_col) ∅ rows !! k) →
     skipped k = false
     ∧ ∃ row, row ∈ rows ∧ src_value df src_col row = k
              ∧ row_counted df src_col attack_col row = true)
  ∧ get k (foldl (row_step df src_col attack_col) ∅ rows) ≤ Z.of_nat (length rows).
Proof.
  rewrite row_scan_counts. split; [apply lookup_counted|]. split.
  - intros Hk%counted_key. unfold row_hits in Hk.
    apply elem_of_map in Hk as (row & -> & Hrow).
    apply list_elem_of_filter in Hrow as [Hc Hrow].
    split; [|eauto]. unfold row_counted in Hc.
    apply andb_true_iff in Hc as [Hc _]. by apply negb_true_iff in Hc.
  - unfold get. rewrite lookup_counted. unfold count_of.
    assert (occurrences k (row_hits df src_col attack_col rows) ≤ length rows)%nat.
    { unfold occurrences. etrans; [apply count_occ_bound|].
      unfold row_hits. rewrite length_map. apply length_filter. }
    case_decide; simpl; lia.
Qed.

(** ** When the tabular attempt raises *)

Lemma find_src_col_None (df : DataFrame) : find_src_col df = None ↔ columns df = [].
Proof.
  unfold find_src_col. split.
  - destruct (find_by_name SRC_KEYS df); [done|].
    destruct (find (many_ips df) (columns df)); [done|].
    by destruct (columns df).
  - intros E. unfold find_by_name. by rewrite E.
Qed.

Lemma normalize_columns_nil (labels : list string) :
  normalize_columns labels = [] ↔ labels = [].
Proof.
  split.
  - intros E. apply (f_equal length) in E.
    unfold normalize_columns in E.
    destruct (forallb _ _) in E; rewrite ?length_map, ?length_seq, ?length_map in E;
      by destruct labels.
  - by intros ->.
Qed.

Lemma tabular_scan_None (parsed : DataFrame) :
  tabular_scan parsed = None ↔ columns parsed = [].
Proof.
  unfold tabular_scan. rewrite <- normalize_columns_nil.
  rewrite <- (find_src_col_None (set_columns (normalize_columns (columns parsed)) parsed)).
  by destruct (find_src_col _).
Qed.

(** X11. With a parser whose frame, once its labels are normalised, has
    pairwise distinct labels: the tabular attempt raises exactly when the
    parse raises or gives a frame without columns; on a partition classified
    tabular whose parse gives a frame with a column, the detector returns
    what the scan of that frame computes. *)
Theorem handler_runs_iff_no_frame
    (sniff : string → option string) (read_csv : string → string → option DataFrame)
    (log_chunk : list string) :
  (∀ parsed,
     read_csv (Text.lines_text log_chunk)
       (sniff_delimiter sniff (chunk_sample log_chunk)) = Some parsed →
     frame_ok (set_columns (normalize_columns (columns parsed)) parsed)) →
  (tabular_attempt sniff read_csv log_chunk = None
   ↔ match read_csv (Text.lines_text log_chunk)
             (sniff_delimiter sniff (chunk_sample log_chunk)) with
     | Some parsed => columns parsed = []
     | None => True
     end)
  ∧ (is_tabular (chunk_sample log_chunk) = true →
     ∀ parsed,
       read_csv (Text.lines_text log_chunk)
         (sniff_delimiter sniff (chunk_sample log_chunk)) = Some parsed →
       columns parsed ≠ [] →
       Some (analyze_logs sniff read_csv log_chunk) = tabular_scan parsed).
Proof.
  intros _. unfold analyze_logs, tabular_attempt. split.
  - destruct (read_csv _ _) as [parsed|]; simpl; [apply tabular_scan_None|done].
  - intros -> parsed -> Hcols. simpl.
    destruct (tabular_scan parsed) eqn:E; [done|].
    by apply tabular_scan_None in E.
Qed.

(** ** The chunks are balanced *)

Lemma length_stride_lt {A} (step wait : nat) (l : list A) (j : nat) :
  (1 ≤ step)%nat →
  (j < length (stride step wait l))%nat ↔ (wait + j * step < length l)%nat.
Proof.
  intros Hstep. rewrite <- !lookup_lt_is_Some. by rewrite lookup_stride.
Qed.

(** X6. Round-robin chunks are balanced: a chunk of lower rank is as long
    as one of higher rank or longer by one; ranks at or beyond the number of
    records get the empty chunk; the chunks hold as many records as the
    input. *)
Theorem partition_balanced (W : nat) (logs : list string) :
  (1 ≤ W)%nat →
  (∀ p q cp cq, (p ≤ q)%nat →
     partition W logs !! p = Some cp → partition W logs !! q = Some cq →
     (length cq ≤ length cp ≤ length cq + 1)%nat)
  ∧ (∀ p cp, partition W logs !! p = Some cp → (length logs ≤ p)%nat → cp = [])
  ∧ length (concat (partition W logs)) = length logs.
Proof.
  intros HW. split; [|split].
  - intros p q cp cq Hpq [Hp ->]%lookup_partition_inv [Hq ->]%lookup_partition_inv.
    split.
    + destruct (length (stride W q logs)) as [|j] eqn:E; [lia|].
      assert (j < length (stride W q logs))%nat as Hj by lia.
      apply length_stride_lt in Hj; [|done].
      assert (j < length (stride W p logs))%nat; [|lia].
      apply length_stride_lt; [done|lia].
    + destruct (length (stride W p logs)) as [|[|j]] eqn:E; [lia|lia|].
      assert (S j < length (stride W p logs))%nat as Hj by lia.
      apply length_stride_lt in Hj; [|done]. rewrite Nat.mul_succ_l in Hj.
      assert (j < length (stride W q logs))%nat; [|lia].
      apply length_stride_lt; [done|lia].
  - intros p cp [Hp ->]%lookup_partition_inv Hlen.
    destruct (stride W p logs) as [|x rest] eqn:E; [done|].
    assert (0 < length (stride W p logs))%nat as H0 by (rewrite E; simpl; lia).
    apply length_stride_lt in H0; [lia|done].
  - apply Permutation_length. by apply concat_partition_Permutation.
Qed.

Lemma partition_balanced_witness :
  (∀ p q cp cq, (p ≤ q)%nat →
     partition 3 ["r0"; "r1"; "r2"; "r3"] !! p = Some cp →
     partition 3 ["r0"; "r1"; "r2"; "r3"] !! q = Some cq →
     (length cq ≤ length cp ≤ length cq + 1)%nat)
  ∧ (∀ p cp, partition 3 ["r0"; "r1"; "r2"; "r3"] !! p = Some cp →
       (length ["r0"; "r1"; "r2"; "r3"] ≤ p)%nat → cp = [])
  ∧ length (concat (partition 3 ["r0"; "r1"; "r2"; "r3"]))
    = length ["r0"; "r1"; "r2"; "r3"].
Proof.
  apply (partition_balanced 3 ["r0"; "r1"; "r2"; "r3"]). lia.
Defined.

(** ** Delimiters in the sample *)

Lemma prefix_app (pat a b : string) :
  String.prefix pat a = true → String.prefix pat (a +:+ b) = true.
Proof.
  revert pat. induction a as [|c a IH]; intros pat.
  - destruct pat; [by destruct b|done].
  - destruct pat as [|d pat]; [done|].
    change (String c a +:+ b) with (String c (a +:+ b)). cbn [String.prefix].
    destruct (ascii_dec d c); [apply IH|done].
Qed.

Lemma contains_app_l (pat a b : string) :
  Text.contains pat a = true → Text.contains pat (a +:+ b) = true.
Proof.
  induction a as [|c a IH].
  - destruct pat as [|d pat]; [by destruct b|done].
  - change (String c a +:+ b) with (String c (a +:+ b)). cbn [Text.contains].
    intros [H|H]%orb_true_iff.
    + apply (prefix_app _ _ b) in H.
      change (String c a +:+ b) with (String c (a +:+ b)) in H. by rewrite H.
    + by rewrite (IH H), orb_true_r.
Qed.

Lemma contains_app_r (pat a b : string) :
  Text.contains pat b = true → Text.contains pat (a +:+ b) = true.
Proof.
  intros H. induction a as [|c a IH]; [done|].
  change (String c a +:+ b) with (String c (a +:+ b)). cbn [Text.contains].
  by rewrite IH, orb_true_r.
Qed.

Lemma contains_join (pat sep : string) (l : list string) (r : string) :
  r ∈ l → Text.contains pat r = true → Text.contains pat (Text.join sep l) = true.
Proof.
  unfold Text.join. intros Hr Hc. induction l as [|x l IH]; [by apply not_elem_of_nil in Hr|].
  destruct l as [|y l].
  - apply list_elem_of_singleton in Hr as ->. exact Hc.
  - change (String.concat sep (x :: y :: l))
      with (x +:+ sep +:+ String.concat sep (y :: l)).
    apply elem_of_cons in Hr as [->|Hr].
    + by apply contains_app_l.
    + apply contains_app_r, contains_app_r. by apply IH.
Qed.

(** X4. A comma, tab or semicolon in any of the first ten records makes the
    partition tabular; and records after the tenth are never looked at when
    classifying: appended to a partition of ten records or more, they leave
    the sample as it is, whatever they hold. *)
Theorem delimiter_in_sample_makes_tabular :
  (∀ (log_chunk : list string) (r d : string),
     r ∈ take 10 log_chunk →
     d ∈ [","; String Text.tab EmptyString; ";"] →
     Text.contains d r = true →
     is_tabular (chunk_sample log_chunk) = true)
  ∧ (∀ log_chunk more : list string,
       (10 ≤ length log_chunk)%nat →
       chunk_sample (log_chunk ++ more) = chunk_sample log_chunk
       ∧ is_tabular (chunk_sample (log_chunk ++ more))
         = is_tabular (chunk_sample log_chunk)).
Proof.
  split.
  - intros log_chunk r d Hr Hd Hc.
    unfold is_tabular, chunk_sample, Text.lines_text.
    apply orb_true_iff. left. apply existsb_exists. exists d.
    split; [by apply list_elem_of_In|]. by eapply contains_join.
  - intros log_chunk more Hlen.
    assert (chunk_sample (log_chunk ++ more) = chunk_sample log_chunk) as E
      by (unfold chunk_sample; by rewrite take_app_le).
    by rewrite E.
Qed.

Lemma delimiter_in_sample_makes_tabular_witness :
  is_tabular (chunk_sample ["Jan 1 host sshd: session opened"; "uid=0, gid=0"]) = true
  ∧ chunk_sample (replicate 10 "idle" ++ ["uid=0, gid=0"])
    = chunk_sample (replicate 10 "idle")
  ∧ is_tabular (chunk_sample (replicate 10 "idle" ++ ["uid=0, gid=0"])) = false.
Proof.
  split; [|split].
  - apply (proj1 delimiter_in_sample_makes_tabular
             ["Jan 1 host sshd: session opened"; "uid=0, gid=0"] "uid=0, gid=0" ",").
    + apply list_elem_of_further, list_elem_of_here.
    + apply list_elem_of_here.
    + reflexivity.
  - apply (proj2 delimiter_in_sample_makes_tabular (replicate 10 "idle") ["uid=0, gid=0"]).
    simpl. lia.
  - rewrite (proj2 (proj2 delimiter_in_sample_makes_tabular
                      (replicate 10 "idle") ["uid=0, gid=0"] (le_n 10))).
    vm_compute. reflexivity.
Defined.

Lemma plain_records_runs_agree_witness :
  run (λ _, None) (λ _ _, None) 1 ["Accepted password for bob from 10.1.1.1"; "idle"]
  = run (λ _, None) (λ _ _, None) 4 ["Accepted password for bob from 10.1.1.1"; "idle"].
Proof.
  apply (plain_records_runs_agree (λ _, None) (λ _ _, None)
           ["Accepted password for bob from 10.1.1.1"; "idle"] 1 4).
  - lia.
  - lia.
  - repeat (constructor; [reflexivity|]). constructor.
Defined.

(** ** Spreadsheet records *)

Lemma prefix_refl (s : string) : String.prefix s s = true.
Proof.
  induction s as [|c s IH]; [done|]. cbn [String.prefix].
  by destruct (ascii_dec c c).
Qed.

Lemma contains_refl (s : string) : Text.contains s s = true.
Proof. destruct s; [done|]. cbn [Text.contains]. by rewrite prefix_refl. Qed.

Lemma join_contains_sep (sep : string) (cells : list string) :
  (2 ≤ length cells)%nat → Text.contains sep (Text.join sep cells) = true.
Proof.
  destruct cells as [|x [|y l]]; simpl; [lia|lia|]. intros _.
  unfold Text.join.
  change (String.concat sep (x :: y :: l)) with (x +:+ sep +:+ String.concat sep (y :: l)).
  apply contains_app_r, contains_app_l, contains_refl.
Qed.

Lemma load_body_sheet (fs : FileSystem) (file_path ext : string) rows :
  in_list ext SHEET_KINDS = true →
  read_excel fs file_path = inr rows →
  load_body fs file_path ext
  = inr (map (λ row, Text.join (String Text.tab EmptyString) (map snd row))
           (filter (λ row, forallb fst row = false) rows)).
Proof.
  unfold in_list, SHEET_KINDS. cbn [existsb]. rewrite orb_false_r.
  intros [H|H]%orb_true_iff Hread; apply String.eqb_eq in H as ->;
    unfold load_body; cbn [String.eqb Ascii.eqb Bool.eqb orb andb]; by rewrite Hread.
Qed.

(** X3. Of a readable spreadsheet whose rows have at least two cells the
    loader makes at most one record per row, each containing a tab, so every
    non-empty partition of them is classified tabular. *)
Theorem spreadsheet_records_are_tabular (fs : FileSystem) (file_path : string)
    (rows : list (list (bool * string))) (logs : list string) :
  in_list (Text.lower (Path.splitext_ext file_path)) SHEET_KINDS = true →
  read_excel fs file_path = inr rows →
  Forall (λ row, (2 ≤ length row)%nat) rows →
  load_data fs file_path = inr logs →
  (length logs ≤ length rows)%nat
  ∧ (∀ r, r ∈ logs → Text.contains_char Text.tab r = true)
  ∧ (∀ W chunk, chunk ∈ partition W logs → chunk ≠ [] →
       is_tabular (chunk_sample chunk) = true).
Proof.
  intros Hext Hread Hwide Hload. unfold load_data in Hload.
  rewrite (load_body_sheet _ _ _ _ Hext Hread) in Hload. injection Hload as <-.
  assert (∀ r, r ∈ map (λ row, Text.join (String Text.tab EmptyString) (map snd row))
                     (filter (λ row, forallb fst row = false) rows) →
               Text.contains_char Text.tab r = true) as Htab.
  { intros r (row & -> & Hrow)%elem_of_map.
    apply list_elem_of_filter in Hrow as [_ Hrow].
    rewrite Forall_forall in Hwide. apply join_contains_sep.
    rewrite length_map. by apply Hwide. }
  split; [rewrite length_map; apply length_filter|]. split; [done|].
  intros W chunk Hchunk Hne. unfold partition in Hchunk.
  apply elem_of_map in Hchunk as (i & -> & _).
  destruct (stride W i _) as [|r rest] eqn:E; [done|].
  assert (Text.contains_char Text.tab r = true) as Hr.
  { apply Htab. apply (elem_of_stride W _ r i). rewrite E. apply list_elem_of_here. }
  unfold is_tabular, chunk_sample, Text.lines_text.
  apply orb_true_iff. left. apply existsb_exists.
  exists (String Text.tab EmptyString). split; [right; left; done|].
  apply (contains_join _ _ _ r); [apply list_elem_of_here|exact Hr].
Qed.

Lemma spreadsheet_records_are_tabular_witness :
  (length small_sheet_records ≤ length small_sheet)%nat
  ∧ (∀ r, r ∈ small_sheet_records → Text.contains_char Text.tab r = true)
  ∧ (∀ W chunk, chunk ∈ partition W small_sheet_records → chunk ≠ [] →
       is_tabular (chunk_sample chunk) = true).
Proof.
  apply (spreadsheet_records_are_tabular sheet_fs "flows.XLSX" small_sheet
           small_sheet_records).
  - reflexivity.
  - reflexivity.
  - repeat (constructor; [simpl; lia|]). constructor.
  - reflexivity.
Defined.

(** ** Counted rows and the frequency fallback *)

Lemma incr_all_nonempty (l : list string) : l ≠ [] → incr_all ∅ l ≠ ∅.
Proof.
  destruct l as [|x l]; [done|]. intros _ E.
  assert (incr_all ∅ (x :: l) !! x = None) as Hx by (by rewrite E, lookup_empty).
  rewrite lookup_counted in Hx. unfold count_of in Hx.
  case_decide as Hocc; [|done]. rewrite occurrences_cons, decide_True in Hocc by done. lia.
Qed.

(** X10. On a frame whose normalised labels are pairwise distinct: when at
    least one row is counted, the frequency fallback is not used, and the
    tabular scan returns exactly the tally of the counted rows' source
    values. *)
Theorem counted_rows_suppress_frequencies (parsed : DataFrame) (src_col : string) :
  let df := set_columns (normalize_columns (columns parsed)) parsed in
  frame_ok df →
  find_src_col df = Some src_col →
  row_hits df src_col (find_attack_col df) (row_text df) ≠ [] →
  tabular_scan parsed
  = Some (incr_all ∅ (row_hits df src_col (find_attack_col df) (row_text df)))
  ∧ ∀ t k, tabular_scan parsed = Some t →
           t !! k = count_of k (row_hits df src_col (find_attack_col df) (row_text df)).
Proof.
  intros df _ Hsrc Hhits.
  assert (tabular_scan parsed
          = Some (incr_all ∅ (row_hits df src_col (find_attack_col df) (row_text df)))) as E.
  { unfold tabular_scan. fold df. rewrite Hsrc, row_scan_counts.
    by rewrite bool_decide_eq_false_2 by by apply incr_all_nonempty. }
  split; [done|]. intros t k Ht. rewrite E in Ht. injection Ht as <-.
  apply lookup_counted.
Qed.

Lemma counted_rows_suppress_frequencies_witness :
  tabular_scan scenario_C
  = Some (incr_all ∅
            (row_hits (set_columns (normalize_columns (columns scenario_C)) scenario_C)
               "src_ip"
               (find_attack_col
                  (set_columns (normalize_columns (columns scenario_C)) scenario_C))
               (row_text (set_columns (normalize_columns (columns scenario_C)) scenario_C))))
  ∧ ∀ t k, tabular_scan scenario_C = Some t →
           t !! k
           = count_of k
               (row_hits (set_columns (normalize_columns (columns scenario_C)) scenario_C)
                  "src_ip"
                  (find_attack_col
                     (set_columns (normalize_columns (columns scenario_C)) scenario_C))
                  (row_text
                     (set_columns (normalize_columns (columns scenario_C)) scenario_C))).
Proof.
  apply (counted_rows_suppress_frequencies scenario_C "src_ip").
  - split; [|reflexivity]. apply (bool_decide_unpack _). vm_compute. reflexivity.
  - vm_compute. reflexivity.
  - vm_compute. discriminate.
Defined.

Lemma free_form_keys_are_ip_like_witness :
  ip_like "2.2.2.2" ∧ "2.2.2.2" ≠ "message".
Proof.
  apply (free_form_keys_are_ip_like (λ _, None) (λ _ _, None) ["seen 1.1.1.1 and 2.2.2.2"] "2.2.2.2").
  - left. reflexivity.
  - exists 1. vm_compute. reflexivity.
Defined.

Lemma free_form_findings_are_shown_witness :
  (chart (render_results
            (pipeline (λ _, None) (λ _ _, None) 2 ["from 1.1.1.1"; "idle"])) = true
   ↔ free_form ["from 1.1.1.1"; "idle"] ≠ ∅)
  ∧ (free_form ["from 1.1.1.1"; "idle"] ≠ ∅ →
     shown (render_results
              (pipeline (λ _, None) (λ _ _, None) 2 ["from 1.1.1.1"; "idle"]))
     = JInt <$> free_form ["from 1.1.1.1"; "idle"]).
Proof.
  apply (free_form_findings_are_shown (λ _, None) (λ _ _, None) 2
           ["from 1.1.1.1"; "idle"]).
  - lia.
  - apply all_free_form_check. vm_compute. reflexivity.
Defined.

Lemma find_attack_col_rightmost_textual_witness :
  match find_attack_col scenario_C with
  | Some c =>
      c ∈ columns scenario_C
      ∧ (first_with (λ x, any_key ATTACK_KEYS (Text.lower x) = true)
           (columns scenario_C) c
         ∨ ((∀ x, x ∈ columns scenario_C → any_key ATTACK_KEYS (Text.lower x) = false)
            ∧ first_with (λ x, textual scenario_C x = true)
                (rev (last_n 6 (columns scenario_C))) c))
  | None =>
      (∀ x, x ∈ columns scenario_C → any_key ATTACK_KEYS (Text.lower x) = false)
      ∧ (∀ x, x ∈ last_n 6 (columns scenario_C) → textual scenario_C x = false)
      ∧ ((length (columns scenario_C) ≤ 6)%nat →
         ∀ x, x ∈ columns scenario_C → textual scenario_C x = false)
  end.
Proof.
  apply (find_attack_col_rightmost_textual scenario_C).
  split; [|reflexivity]. apply (bool_decide_unpack _). vm_compute. reflexivity.
Defined.

Example find_attack_col_examples :
  find_attack_col scenario_C = Some "label"
  ∧ find_attack_col two_in_one = Some "b"
  ∧ find_attack_col headerless = None.
Proof. vm_compute. done. Qed.

Lemma handler_runs_iff_no_frame_witness :
  (tabular_attempt (λ _, None) (λ _ _, Some scenario_C)
     ["src_ip,label"; "9.9.9.9,benign"; "9.9.9.9,exploit"] = None
   ↔ columns scenario_C = [])
  ∧ (is_tabular (chunk_sample ["src_ip,label"; "9.9.9.9,benign"; "9.9.9.9,exploit"])
     = true →
     ∀ parsed,
       Some scenario_C = Some parsed →
       columns parsed ≠ [] →
       Some (analyze_logs (λ _, None) (λ _ _, Some scenario_C)
               ["src_ip,label"; "9.9.9.9,benign"; "9.9.9.9,exploit"])
       = tabular_scan parsed).
Proof.
  apply (handler_runs_iff_no_frame (λ _, None) (λ _ _, Some scenario_C)
           ["src_ip,label"; "9.9.9.9,benign"; "9.9.9.9,exploit"]).
  intros parsed [= <-].
  split; [|reflexivity]. apply (bool_decide_unpack _). vm_compute. reflexivity.
Defined.

Example tabular_chunk_tally :
  analyze_logs (λ _, None) (λ _ _, Some scenario_C)
    ["src_ip,label"; "9.9.9.9,benign"; "9.9.9.9,exploit"]
  = {[ "9.9.9.9" := 1 ]}.
Proof. vm_compute. reflexivity. Qed.
